(** * Batch relay dApp: BatchExecutor and GasSponsor

    A shallow embedding of the two Solidity contracts of the repository
    (contracts/BatchExecutor.sol and the GasSponsor contract that follows it
    in the same file), together with the properties of the specification
    that concern them.

    Modelling conventions
    - [uint256] and [address] values are binary naturals ([N]); Solidity 0.8
      checked arithmetic is written out: an addition whose result exceeds
      [MAX_UINT256] and a division by zero raise a [Panic].
    - A Solidity [mapping] is a [gmap] read with default [0] / [false].
    - A contract function is a computation in the monad [Tx]: it threads the
      contract storage and either succeeds or reverts.  A revert keeps the
      storage as it was at the point of failure (the "dirty" storage);
      [commit] is the transaction boundary of the EVM, which discards the
      dirty storage of a reverted call.
    - keccak256, ecrecover and the code of the external callees are not
      code of the repository: they are the fields of the classes
      [Precompiles] and [World]. A target of the batch coordinator is any
      code, the coordinator itself included: it may call [executeBatch]
      while it is being called, so its answer is a [Reaction] that is run
      against the storage. The recipient of a transfer of the sponsorship
      pool is taken not to call the pool back. *)

From Stdlib Require Import NArith Lia List String.
From stdpp Require Import base numbers option list gmap strings.

Open Scope N_scope.

(** ** The EVM execution model *)

Module EVM.

Definition uint256 := N.
Definition address := N.
(** A byte string: a list of numbers below 256. *)
Definition bytes := list N.

Definition MAX_UINT256 : N := 2 ^ 256 - 1.

(** The two ways a Solidity 0.8 call fails: a [require] with its reason
    string, or a compiler-inserted panic with its code. *)
Inductive Error : Type :=
| RequireFailed (reason : string)
| Panic (code : N).

Definition ARITHMETIC_OVERFLOW : N := 17.  (* Panic(0x11) *)
Definition DIVISION_BY_ZERO : N := 18.     (* Panic(0x12) *)

Inductive Outcome (S A : Type) : Type :=
| Success (a : A) (s : S)
| Reverted (e : Error) (dirty : S).
Arguments Success {S A} a s.
Arguments Reverted {S A} e dirty.

Definition Tx (S A : Type) : Type := S -> Outcome S A.

Definition ret {S A} (a : A) : Tx S A := fun s => Success a s.

Definition bind {S A B} (m : Tx S A) (k : A -> Tx S B) : Tx S B :=
  fun s => match m s with
           | Success a s' => k a s'
           | Reverted e d => Reverted e d
           end.

Definition get {S} : Tx S S := fun s => Success s s.
Definition gets {S A} (f : S -> A) : Tx S A := fun s => Success (f s) s.
Definition modify {S} (f : S -> S) : Tx S unit := fun s => Success tt (f s).
Definition revert {S A} (e : Error) : Tx S A := fun s => Reverted e s.

Definition require {S} (cond : bool) (reason : string) : Tx S unit :=
  if cond then ret tt else revert (RequireFailed reason).

(** Checked arithmetic of Solidity 0.8. *)
Definition checked_add {S} (a b : uint256) : Tx S uint256 :=
  if a + b <=? MAX_UINT256 then ret (a + b) else revert (Panic ARITHMETIC_OVERFLOW).

Definition checked_div {S} (a b : uint256) : Tx S uint256 :=
  if b =? 0 then revert (Panic DIVISION_BY_ZERO) else ret (a / b).

(** [for (i = 0; i < xs.length; i++) body(xs[i])] *)
Fixpoint for_each {S A} (body : A -> Tx S unit) (xs : list A) : Tx S unit :=
  match xs with
  | [] => ret tt
  | x :: rest => bind (body x) (fun _ => for_each body rest)
  end.

(** The transaction boundary: the storage after the call and what the
    caller sees. A reverted call leaves the storage as it was. *)
Definition commit {S A} (m : Tx S A) (s : S) : S * (Error + A) :=
  match m s with
  | Success a s' => (s', inr a)
  | Reverted e _ => (s, inl e)
  end.

(** Reading a mapping: absent keys read as the zero value. *)
Definition read (m : gmap address uint256) (k : address) : uint256 :=
  default 0 (m !! k).
Definition read_flag (m : gmap address bool) (k : address) : bool :=
  default false (m !! k).

(** Big-endian encoding of a number on [w] bytes (the high part of a
    number that does not fit is cut off), and its inverse. *)
Fixpoint be_bytes (w : nat) (n : N) : bytes :=
  match w with
  | O => []
  | S w' => be_bytes w' (n / 256) ++ [n mod 256]
  end.

Definition be_decode (bs : bytes) : N :=
  fold_left (fun acc b => acc * 256 + b) bs 0.

Definition word (n : N) : bytes := be_bytes 32 n.

Definition string_bytes (s : string) : bytes :=
  map Byte.to_N (list_byte_of_string s).

(** What the EVM provides below the contract. [ecrecover] returns the
    zero address when the signature is not valid. *)
Class Precompiles : Type := {
  keccak256 : bytes -> N;
  ecrecover : N -> N -> N -> N -> address
}.

End EVM.

Import EVM.

Declare Scope tx_scope.
Delimit Scope tx_scope with tx.
Notation "x <- m ;; k" := (bind m (fun x => k))
  (at level 100, m at next level, k at level 200, right associativity) : tx_scope.
Notation "m ;; k" := (bind m (fun _ => k))
  (at level 100, k at level 200, right associativity) : tx_scope.
Open Scope tx_scope.

(** ** contracts/BatchExecutor.sol: contract BatchExecutor *)

Module BatchExecutor.

Record ForwardRequest : Type := {
  from : address;
  to : address;
  value : uint256;
  gas : uint256;
  nonce : uint256;
  data : bytes
}.

Inductive Event : Type :=
| RequestExecuted (from to : address) (nonce : uint256) (success : bool)
| BatchExecuted (relayer : address) (totalRequests successCount : uint256).

Record State : Type := {
  DOMAIN_SEPARATOR : N;
  nonces : gmap address uint256;
  events : list Event
}.

Definition set_nonce (a : address) (n : uint256) (s : State) : State :=
  {| DOMAIN_SEPARATOR := DOMAIN_SEPARATOR s;
     nonces := <[a := n]> (nonces s);
     events := events s |}.

Definition emit (e : Event) (s : State) : State :=
  {| DOMAIN_SEPARATOR := DOMAIN_SEPARATOR s;
     nonces := nonces s;
     events := events s ++ [e] |}.

(** What the code at a target does when the coordinator calls it: it
    returns, with success or failure, or it first calls [executeBatch] of
    the coordinator, as [caller], and goes on from the storage and the
    answer that come back. The views of the coordinator need no case of
    their own: what they return is read off the storage. *)
Inductive Reaction : Type :=
| Return (success : bool)
| Reenter (caller : address) (requests : list ForwardRequest)
          (signatures : list bytes)
          (continue : State -> Error + list bool -> Reaction).

(** The code behind [req.to.call{gas, value}(calldata)], given the storage
    the coordinator has at the time of the call, and the number of calls
    of [executeBatch] that the call stack of the EVM still allows inside
    one another. The ether the coordinator holds plays no part in the
    ledger: whether it covers [req.value] is part of the reaction. *)
Class World : Type := {
  target_call : State -> address -> uint256 -> uint256 -> bytes -> Reaction;
  call_depth : nat
}.

(** [executeBatch] as a target can call it. *)
Definition Entry : Type :=
  address -> list ForwardRequest -> list bytes -> Tx State (list bool).

(** A call that the EVM does not make because the call stack is full: the
    caller sees a failure without revert data. *)
Definition call_not_made : Error := RequireFailed EmptyString.

Section Contract.
Context `{Precompiles} `{World}.

Definition REQUEST_TYPEHASH : N :=
  keccak256 (string_bytes
    "ForwardRequest(address from,address to,uint256 value,uint256 gas,uint256 nonce,bytes data)").

Definition domain_separator (name version : string) (chainid : uint256)
    (this : address) : N :=
  keccak256
    (word (keccak256 (string_bytes
       "EIP712Domain(string name,string version,uint256 chainId,address verifyingContract)"))
     ++ word (keccak256 (string_bytes name))
     ++ word (keccak256 (string_bytes version))
     ++ word chainid
     ++ word this).

Definition constructor (chainid : uint256) (this : address) : State :=
  {| DOMAIN_SEPARATOR := domain_separator "BatchExecutor" "1" chainid this;
     nonces := ∅;
     events := [] |}.

Definition structHash (req : ForwardRequest) : N :=
  keccak256
    (word REQUEST_TYPEHASH ++ word (from req) ++ word (to req)
     ++ word (value req) ++ word (gas req) ++ word (nonce req)
     ++ word (keccak256 (data req))).

(** [keccak256(abi.encodePacked("\x19\x01", separator, structHash))] *)
Definition digest (separator : N) (req : ForwardRequest) : N :=
  keccak256 ([25; 1] ++ word separator ++ word (structHash req)).

Definition sig_r (signature : bytes) : N := be_decode (take 32 signature).
Definition sig_s (signature : bytes) : N := be_decode (take 32 (drop 32 signature)).
Definition sig_v (signature : bytes) : N := default 0 (signature !! 64%nat).

Definition _recoverSigner (dgst : N) (signature : bytes) : Tx State address :=
  require (N.of_nat (length signature) =? 65)
          "BatchExecutor: invalid signature length" ;;
  let r := sig_r signature in
  let s := sig_s signature in
  let v := sig_v signature in
  let signer := ecrecover dgst v r s in
  require (negb (signer =? 0)) "BatchExecutor: invalid signature" ;;
  ret signer.

Definition verify (req : ForwardRequest) (signature : bytes) : Tx State bool :=
  separator <- gets DOMAIN_SEPARATOR ;;
  signer <- _recoverSigner (digest separator req) signature ;;
  ledger <- gets nonces ;;
  ret ((signer =? from req) && (nonce req =? read ledger (from req))).

(** The code of a target at work on the storage: each call of
    [executeBatch] it makes is a call of its own, committed when it
    returns and undone when it reverts. *)
Fixpoint run (reenter : Entry) (r : Reaction) (s : State) : bool * State :=
  match r with
  | Return success => (success, s)
  | Reenter caller requests signatures continue =>
      let after := commit (reenter caller requests signatures) s in
      run reenter (continue (fst after) (snd after)) (fst after)
  end.

(** [req.to.call{gas: req.gas, value: req.value}(abi.encodePacked(req.data,
    req.from))] on the storage [pre]: when the target fails, what it had
    written during the call is undone with it. *)
Definition call (reenter : Entry) (req : ForwardRequest) (pre : State)
    : bool * State :=
  let out := run reenter
               (target_call pre (to req) (gas req) (value req)
                            (data req ++ be_bytes 20 (from req))) pre in
  if fst out then (true, snd out) else (false, pre).

Definition _executeRequest (reenter : Entry) (req : ForwardRequest)
    : Tx State bool :=
  next <- checked_add (nonce req) 1 ;;
  modify (set_nonce (from req) next) ;;
  pre <- get ;;
  let out := call reenter req pre in
  modify (fun _ => snd out) ;;
  modify (emit (RequestExecuted (from req) (to req) (nonce req) (fst out))) ;;
  ret (fst out).

(** The body of the loop of [executeBatch], from index [i] on. *)
Fixpoint executeBatch_loop (reenter : Entry) (i : nat)
    (items : list (ForwardRequest * bytes))
    (results : list bool) (successCount : uint256)
    : Tx State (list bool * uint256) :=
  match items with
  | [] => ret (results, successCount)
  | (req, signature) :: rest =>
      ok <- verify req signature ;;
      require ok "BatchExecutor: invalid signature or nonce" ;;
      success <- _executeRequest reenter req ;;
      executeBatch_loop reenter (S i) rest (<[i := success]> results)
        (if success then successCount + 1 else successCount)
  end.

(** The function [executeBatch], given what a call of it from inside a
    target does. *)
Definition executeBatch_body (reenter : Entry) : Entry :=
  fun msg_sender requests signatures =>
  require (N.of_nat (length requests) =? N.of_nat (length signatures))
          "BatchExecutor: length mismatch" ;;
  require (0 <? N.of_nat (length requests)) "BatchExecutor: empty batch" ;;
  out <- executeBatch_loop reenter 0 (zip requests signatures)
           (replicate (length requests) false) 0 ;;
  modify (emit (BatchExecuted msg_sender (N.of_nat (length requests)) (snd out))) ;;
  ret (fst out).

(** [executeBatch] with room for [depth] calls of itself inside one
    another: a target that calls it finds room for one less, and none when
    the stack is full. *)
Fixpoint executeBatch_at (depth : nat) {struct depth} : Entry :=
  executeBatch_body
    match depth with
    | O => fun _ _ _ => revert call_not_made
    | S below => executeBatch_at below
    end.

(** What a target reaches when it calls [executeBatch]. *)
Definition reentry (depth : nat) : Entry :=
  match depth with
  | O => fun _ _ _ => revert call_not_made
  | S below => executeBatch_at below
  end.

Definition executeBatch : Entry := executeBatch_at call_depth.

Definition getNonce (a : address) (s : State) : uint256 := read (nonces s) a.

End Contract.

End BatchExecutor.

(** ** contracts/BatchExecutor.sol (second part): contract GasSponsor *)

Module GasSponsor.

Inductive Event : Type :=
| Deposited (sponsor : address) (amount : uint256)
| Claimed (relayer : address) (amount : uint256) (users : list address)
          (batchSize : uint256).

(** The storage of the contract, with two pieces of the surrounding
    account state: [balance] is [address(this).balance] and [payments]
    lists the value transfers the contract has made, oldest first. *)
Record State : Type := {
  owner : address;
  paused : bool;
  whitelistedRelayers : gmap address bool;
  maxPerClaim : uint256;
  dailyLimitPerRelayer : uint256;
  dailyLimitPerUser : uint256;
  globalDailyLimit : uint256;
  relayerDailyClaimed : gmap address uint256;
  relayerLastClaimDay : gmap address uint256;
  userDailySponsored : gmap address uint256;
  userLastSponsorDay : gmap address uint256;
  globalDailyClaimed : uint256;
  globalLastClaimDay : uint256;
  totalDeposited : uint256;
  totalClaimed : uint256;
  totalClaimCount : uint256;
  balance : uint256;
  payments : list (address * uint256);
  events : list Event
}.

(** Storage writes. *)
Definition set_relayerDailyClaimed (a : address) (v : uint256) (s : State) : State :=
  {| owner := owner s; paused := paused s;
     whitelistedRelayers := whitelistedRelayers s;
     maxPerClaim := maxPerClaim s;
     dailyLimitPerRelayer := dailyLimitPerRelayer s;
     dailyLimitPerUser := dailyLimitPerUser s;
     globalDailyLimit := globalDailyLimit s;
     relayerDailyClaimed := <[a := v]> (relayerDailyClaimed s);
     relayerLastClaimDay := relayerLastClaimDay s;
     userDailySponsored := userDailySponsored s;
     userLastSponsorDay := userLastSponsorDay s;
     globalDailyClaimed := globalDailyClaimed s;
     globalLastClaimDay := globalLastClaimDay s;
     totalDeposited := totalDeposited s;
     totalClaimed := totalClaimed s;
     totalClaimCount := totalClaimCount s;
     balance := balance s; payments := payments s; events := events s |}.

Definition set_relayerLastClaimDay (a : address) (v : uint256) (s : State) : State :=
  {| owner := owner s; paused := paused s;
     whitelistedRelayers := whitelistedRelayers s;
     maxPerClaim := maxPerClaim s;
     dailyLimitPerRelayer := dailyLimitPerRelayer s;
     dailyLimitPerUser := dailyLimitPerUser s;
     globalDailyLimit := globalDailyLimit s;
     relayerDailyClaimed := relayerDailyClaimed s;
     relayerLastClaimDay := <[a := v]> (relayerLastClaimDay s);
     userDailySponsored := userDailySponsored s;
     userLastSponsorDay := userLastSponsorDay s;
     globalDailyClaimed := globalDailyClaimed s;
     globalLastClaimDay := globalLastClaimDay s;
     totalDeposited := totalDeposited s;
     totalClaimed := totalClaimed s;
     totalClaimCount := totalClaimCount s;
     balance := balance s; payments := payments s; events := events s |}.

Definition set_userDailySponsored (a : address) (v : uint256) (s : State) : State :=
  {| owner := owner s; paused := paused s;
     whitelistedRelayers := whitelistedRelayers s;
     maxPerClaim := maxPerClaim s;
     dailyLimitPerRelayer := dailyLimitPerRelayer s;
     dailyLimitPerUser := dailyLimitPerUser s;
     globalDailyLimit := globalDailyLimit s;
     relayerDailyClaimed := relayerDailyClaimed s;
     relayerLastClaimDay := relayerLastClaimDay s;
     userDailySponsored := <[a := v]> (userDailySponsored s);
     userLastSponsorDay := userLastSponsorDay s;
     globalDailyClaimed := globalDailyClaimed s;
     globalLastClaimDay := globalLastClaimDay s;
     totalDeposited := totalDeposited s;
     totalClaimed := totalClaimed s;
     totalClaimCount := totalClaimCount s;
     balance := balance s; payments := payments s; events := events s |}.

Definition set_userLastSponsorDay (a : address) (v : uint256) (s : State) : State :=
  {| owner := owner s; paused := paused s;
     whitelistedRelayers := whitelistedRelayers s;
     maxPerClaim := maxPerClaim s;
     dailyLimitPerRelayer := dailyLimitPerRelayer s;
     dailyLimitPerUser := dailyLimitPerUser s;
     globalDailyLimit := globalDailyLimit s;
     relayerDailyClaimed := relayerDailyClaimed s;
     relayerLastClaimDay := relayerLastClaimDay s;
     userDailySponsored := userDailySponsored s;
     userLastSponsorDay := <[a := v]> (userLastSponsorDay s);
     globalDailyClaimed := globalDailyClaimed s;
     globalLastClaimDay := globalLastClaimDay s;
     totalDeposited := totalDeposited s;
     totalClaimed := totalClaimed s;
     totalClaimCount := totalClaimCount s;
     balance := balance s; payments := payments s; events := events s |}.

Definition set_globalDailyClaimed (v : uint256) (s : State) : State :=
  {| owner := owner s; paused := paused s;
     whitelistedRelayers := whitelistedRelayers s;
     maxPerClaim := maxPerClaim s;
     dailyLimitPerRelayer := dailyLimitPerRelayer s;
     dailyLimitPerUser := dailyLimitPerUser s;
     globalDailyLimit := globalDailyLimit s;
     relayerDailyClaimed := relayerDailyClaimed s;
     relayerLastClaimDay := relayerLastClaimDay s;
     userDailySponsored := userDailySponsored s;
     userLastSponsorDay := userLastSponsorDay s;
     globalDailyClaimed := v;
     globalLastClaimDay := globalLastClaimDay s;
     totalDeposited := totalDeposited s;
     totalClaimed := totalClaimed s;
     totalClaimCount := totalClaimCount s;
     balance := balance s; payments := payments s; events := events s |}.

Definition set_globalLastClaimDay (v : uint256) (s : State) : State :=
  {| owner := owner s; paused := paused s;
     whitelistedRelayers := whitelistedRelayers s;
     maxPerClaim := maxPerClaim s;
     dailyLimitPerRelayer := dailyLimitPerRelayer s;
     dailyLimitPerUser := dailyLimitPerUser s;
     globalDailyLimit := globalDailyLimit s;
     relayerDailyClaimed := relayerDailyClaimed s;
     relayerLastClaimDay := relayerLastClaimDay s;
     userDailySponsored := userDailySponsored s;
     userLastSponsorDay := userLastSponsorDay s;
     globalDailyClaimed := globalDailyClaimed s;
     globalLastClaimDay := v;
     totalDeposited := totalDeposited s;
     totalClaimed := totalClaimed s;
     totalClaimCount := totalClaimCount s;
     balance := balance s; payments := payments s; events := events s |}.

Definition set_totalDeposited (v : uint256) (s : State) : State :=
  {| owner := owner s; paused := paused s;
     whitelistedRelayers := whitelistedRelayers s;
     maxPerClaim := maxPerClaim s;
     dailyLimitPerRelayer := dailyLimitPerRelayer s;
     dailyLimitPerUser := dailyLimitPerUser s;
     globalDailyLimit := globalDailyLimit s;
     relayerDailyClaimed := relayerDailyClaimed s;
     relayerLastClaimDay := relayerLastClaimDay s;
     userDailySponsored := userDailySponsored s;
     userLastSponsorDay := userLastSponsorDay s;
     globalDailyClaimed := globalDailyClaimed s;
     globalLastClaimDay := globalLastClaimDay s;
     totalDeposited := v;
     totalClaimed := totalClaimed s;
     totalClaimCount := totalClaimCount s;
     balance := balance s; payments := payments s; events := events s |}.

Definition set_totalClaimed (v : uint256) (s : State) : State :=
  {| owner := owner s; paused := paused s;
     whitelistedRelayers := whitelistedRelayers s;
     maxPerClaim := maxPerClaim s;
     dailyLimitPerRelayer := dailyLimitPerRelayer s;
     dailyLimitPerUser := dailyLimitPerUser s;
     globalDailyLimit := globalDailyLimit s;
     relayerDailyClaimed := relayerDailyClaimed s;
     relayerLastClaimDay := relayerLastClaimDay s;
     userDailySponsored := userDailySponsored s;
     userLastSponsorDay := userLastSponsorDay s;
     globalDailyClaimed := globalDailyClaimed s;
     globalLastClaimDay := globalLastClaimDay s;
     totalDeposited := totalDeposited s;
     totalClaimed := v;
     totalClaimCount := totalClaimCount s;
     balance := balance s; payments := payments s; events := events s |}.

Definition set_totalClaimCount (v : uint256) (s : State) : State :=
  {| owner := owner s; paused := paused s;
     whitelistedRelayers := whitelistedRelayers s;
     maxPerClaim := maxPerClaim s;
     dailyLimitPerRelayer := dailyLimitPerRelayer s;
     dailyLimitPerUser := dailyLimitPerUser s;
     globalDailyLimit := globalDailyLimit s;
     relayerDailyClaimed := relayerDailyClaimed s;
     relayerLastClaimDay := relayerLastClaimDay s;
     userDailySponsored := userDailySponsored s;
     userLastSponsorDay := userLastSponsorDay s;
     globalDailyClaimed := globalDailyClaimed s;
     globalLastClaimDay := globalLastClaimDay s;
     totalDeposited := totalDeposited s;
     totalClaimed := totalClaimed s;
     totalClaimCount := v;
     balance := balance s; payments := payments s; events := events s |}.

(** The account state around the storage: value received with a call,
    value sent by a successful [call{value: v}], and the event log. *)
Definition credit (v : uint256) (s : State) : State :=
  {| owner := owner s; paused := paused s;
     whitelistedRelayers := whitelistedRelayers s;
     maxPerClaim := maxPerClaim s;
     dailyLimitPerRelayer := dailyLimitPerRelayer s;
     dailyLimitPerUser := dailyLimitPerUser s;
     globalDailyLimit := globalDailyLimit s;
     relayerDailyClaimed := relayerDailyClaimed s;
     relayerLastClaimDay := relayerLastClaimDay s;
     userDailySponsored := userDailySponsored s;
     userLastSponsorDay := userLastSponsorDay s;
     globalDailyClaimed := globalDailyClaimed s;
     globalLastClaimDay := globalLastClaimDay s;
     totalDeposited := totalDeposited s;
     totalClaimed := totalClaimed s;
     totalClaimCount := totalClaimCount s;
     balance := balance s + v; payments := payments s; events := events s |}.

Definition pay (recipient : address) (v : uint256) (s : State) : State :=
  {| owner := owner s; paused := paused s;
     whitelistedRelayers := whitelistedRelayers s;
     maxPerClaim := maxPerClaim s;
     dailyLimitPerRelayer := dailyLimitPerRelayer s;
     dailyLimitPerUser := dailyLimitPerUser s;
     globalDailyLimit := globalDailyLimit s;
     relayerDailyClaimed := relayerDailyClaimed s;
     relayerLastClaimDay := relayerLastClaimDay s;
     userDailySponsored := userDailySponsored s;
     userLastSponsorDay := userLastSponsorDay s;
     globalDailyClaimed := globalDailyClaimed s;
     globalLastClaimDay := globalLastClaimDay s;
     totalDeposited := totalDeposited s;
     totalClaimed := totalClaimed s;
     totalClaimCount := totalClaimCount s;
     balance := balance s - v;
     payments := payments s ++ [(recipient, v)];
     events := events s |}.

Definition emit (e : Event) (s : State) : State :=
  {| owner := owner s; paused := paused s;
     whitelistedRelayers := whitelistedRelayers s;
     maxPerClaim := maxPerClaim s;
     dailyLimitPerRelayer := dailyLimitPerRelayer s;
     dailyLimitPerUser := dailyLimitPerUser s;
     globalDailyLimit := globalDailyLimit s;
     relayerDailyClaimed := relayerDailyClaimed s;
     relayerLastClaimDay := relayerLastClaimDay s;
     userDailySponsored := userDailySponsored s;
     userLastSponsorDay := userLastSponsorDay s;
     globalDailyClaimed := globalDailyClaimed s;
     globalLastClaimDay := globalLastClaimDay s;
     totalDeposited := totalDeposited s;
     totalClaimed := totalClaimed s;
     totalClaimCount := totalClaimCount s;
     balance := balance s; payments := payments s;
     events := events s ++ [e] |}.

(** Whether [payable(recipient).call{value: v}("")] succeeds. *)
Class World : Type := {
  transfer_call : State -> address -> uint256 -> bool
}.

Definition ONE_DAY : uint256 := 86400.

Section Contract.
Context `{World}.

Definition deposit (msg_sender : address) (msg_value : uint256) : Tx State unit :=
  modify (credit msg_value) ;;
  require (0 <? msg_value) "GasSponsor: zero deposit" ;;
  old <- gets totalDeposited ;;
  new <- checked_add old msg_value ;;
  modify (set_totalDeposited new) ;;
  modify (emit (Deposited msg_sender msg_value)).

Definition receive (msg_sender : address) (msg_value : uint256) : Tx State unit :=
  modify (credit msg_value) ;;
  old <- gets totalDeposited ;;
  new <- checked_add old msg_value ;;
  modify (set_totalDeposited new) ;;
  modify (emit (Deposited msg_sender msg_value)).

(** Step 3 of [claim], the body of the first loop. *)
Definition claim_check_user (today perUserCost : uint256) (u : address)
    : Tx State unit :=
  last <- gets (fun s => read (userLastSponsorDay s) u) ;;
  (if last <? today
   then modify (set_userDailySponsored u 0) ;;
        modify (set_userLastSponsorDay u today)
   else ret tt) ;;
  used <- gets (fun s => read (userDailySponsored s) u) ;;
  total <- checked_add used perUserCost ;;
  limit <- gets dailyLimitPerUser ;;
  require (total <=? limit) "GasSponsor: user daily limit reached".

(** Step 6 of [claim], the body of the second loop. *)
Definition claim_charge_user (perUserCost : uint256) (u : address)
    : Tx State unit :=
  used <- gets (fun s => read (userDailySponsored s) u) ;;
  total <- checked_add used perUserCost ;;
  modify (set_userDailySponsored u total).

Definition claim (msg_sender : address) (block_timestamp : uint256)
    (amount : uint256) (users : list address) : Tx State unit :=
  (* modifiers onlyWhitelistedRelayer, whenNotPaused *)
  listed <- gets (fun s => read_flag (whitelistedRelayers s) msg_sender) ;;
  require listed "GasSponsor: not whitelisted" ;;
  stopped <- gets paused ;;
  require (negb stopped) "GasSponsor: paused" ;;
  (* Step 1: cap the claim amount *)
  cap <- gets maxPerClaim ;;
  let reimbursement := if cap <? amount then cap else amount in
  (* Step 2: relayer daily limit *)
  let today := block_timestamp / ONE_DAY in
  last <- gets (fun s => read (relayerLastClaimDay s) msg_sender) ;;
  (if last <? today
   then modify (set_relayerDailyClaimed msg_sender 0) ;;
        modify (set_relayerLastClaimDay msg_sender today)
   else ret tt) ;;
  used <- gets (fun s => read (relayerDailyClaimed s) msg_sender) ;;
  total <- checked_add used reimbursement ;;
  limit <- gets dailyLimitPerRelayer ;;
  require (total <=? limit) "GasSponsor: relayer daily limit reached" ;;
  (* Step 3: per-user daily limits *)
  perUserCost <- checked_div reimbursement (N.of_nat (length users)) ;;
  for_each (claim_check_user today perUserCost) users ;;
  (* Step 4: global daily limit *)
  glast <- gets globalLastClaimDay ;;
  (if glast <? today
   then modify (set_globalDailyClaimed 0) ;;
        modify (set_globalLastClaimDay today)
   else ret tt) ;;
  gused <- gets globalDailyClaimed ;;
  gtotal <- checked_add gused reimbursement ;;
  glimit <- gets globalDailyLimit ;;
  require (gtotal <=? glimit) "GasSponsor: global daily limit reached" ;;
  (* Step 5: pool balance *)
  pool <- gets balance ;;
  require (reimbursement <=? pool) "GasSponsor: insufficient pool funds" ;;
  (* Step 6: update all tracking state *)
  used' <- gets (fun s => read (relayerDailyClaimed s) msg_sender) ;;
  total' <- checked_add used' reimbursement ;;
  modify (set_relayerDailyClaimed msg_sender total') ;;
  for_each (claim_charge_user perUserCost) users ;;
  gused' <- gets globalDailyClaimed ;;
  gtotal' <- checked_add gused' reimbursement ;;
  modify (set_globalDailyClaimed gtotal') ;;
  claimed <- gets totalClaimed ;;
  claimed' <- checked_add claimed reimbursement ;;
  modify (set_totalClaimed claimed') ;;
  count <- gets totalClaimCount ;;
  count' <- checked_add count 1 ;;
  modify (set_totalClaimCount count') ;;
  (* Step 7: transfer *)
  sent <- gets (fun s => transfer_call s msg_sender reimbursement) ;;
  (if sent then modify (pay msg_sender reimbursement) else ret tt) ;;
  require sent "GasSponsor: transfer failed" ;;
  modify (emit (Claimed msg_sender reimbursement users (N.of_nat (length users)))).

(** The loop of [estimateReimbursement]: [false] stands for the early
    [return (0, false)]. *)
Fixpoint estimate_users (today perUserCost : uint256) (users : list address)
    : Tx State bool :=
  match users with
  | [] => ret true
  | u :: rest =>
      stored <- gets (fun s => read (userDailySponsored s) u) ;;
      last <- gets (fun s => read (userLastSponsorDay s) u) ;;
      let userClaimed := if last <? today then 0 else stored in
      total <- checked_add userClaimed perUserCost ;;
      limit <- gets dailyLimitPerUser ;;
      if limit <? total then ret false
      else estimate_users today perUserCost rest
  end.

Definition estimateReimbursement (block_timestamp : uint256)
    (amount : uint256) (relayer : address) (users : list address)
    : Tx State (uint256 * bool) :=
  cap <- gets maxPerClaim ;;
  let reimbursement := if cap <? amount then cap else amount in
  pool <- gets balance ;;
  if pool <? reimbursement then ret (0, false) else
  let today := block_timestamp / ONE_DAY in
  stored <- gets (fun s => read (relayerDailyClaimed s) relayer) ;;
  last <- gets (fun s => read (relayerLastClaimDay s) relayer) ;;
  let relayerClaimed := if last <? today then 0 else stored in
  total <- checked_add relayerClaimed reimbursement ;;
  limit <- gets dailyLimitPerRelayer ;;
  if limit <? total then ret (0, false) else
  gstored <- gets globalDailyClaimed ;;
  glast <- gets globalLastClaimDay ;;
  let globalClaimed := if glast <? today then 0 else gstored in
  gtotal <- checked_add globalClaimed reimbursement ;;
  glimit <- gets globalDailyLimit ;;
  if glimit <? gtotal then ret (0, false) else
  perUserCost <- checked_div reimbursement (N.of_nat (length users)) ;;
  fits <- estimate_users today perUserCost users ;;
  if fits then ret (reimbursement, true) else ret (0, false).

End Contract.

End GasSponsor.

(** ** Vocabulary of the properties of the batch coordinator *)

Module BatchSpec.
Import BatchExecutor.

Section Vocabulary.
Context `{Precompiles} `{World}.

(** The signature has the right length and recovers to the sender of
    the request: the part of [verify] that does not read the ledger. *)
Definition authentic (separator : N) (req : ForwardRequest)
    (signature : bytes) : bool :=
  let signer := ecrecover (digest separator req) (sig_v signature)
                          (sig_r signature) (sig_s signature) in
  (N.of_nat (length signature) =? 65) && negb (signer =? 0)
  && (signer =? from req).

(** How many requests of a list come from the sender [a]. *)
Fixpoint sent_by (a : address) (requests : list ForwardRequest) : N :=
  match requests with
  | [] => 0
  | r :: rest => (if from r =? a then 1 else 0) + sent_by a rest
  end.

(** The calldata handed to the target: payload, then the sender. *)
Definition envelope (req : ForwardRequest) : bytes :=
  data req ++ be_bytes 20 (from req).

(** One turn of the loop of [executeBatch]. *)
Definition turn (reenter : Entry) (req : ForwardRequest) (signature : bytes)
    : Tx State bool :=
  ok <- verify req signature ;;
  require ok "BatchExecutor: invalid signature or nonce" ;;
  _executeRequest reenter req.

(** How many executions of requests of the sender [a] a piece of the log
    records. *)
Fixpoint executed_for (a : address) (log : list Event) : N :=
  match log with
  | [] => 0
  | RequestExecuted sender _ _ _ :: rest =>
      (if sender =? a then 1 else 0) + executed_for a rest
  | BatchExecuted _ _ _ :: rest => executed_for a rest
  end.

(** From [s] to [s'] the separator is kept, the log is extended, and the
    counter of every sender has grown by the number of executions of its
    requests that the extension records. *)
Definition grows (s s' : State) : Prop :=
  DOMAIN_SEPARATOR s' = DOMAIN_SEPARATOR s
  /\ exists log,
       events s' = events s ++ log
       /\ forall a, getNonce a s' = getNonce a s + executed_for a log.

Definition sound (reenter : Entry) : Prop :=
  forall caller requests signatures s,
    grows s (fst (commit (reenter caller requests signatures) s)).

(** No target of the requests calls the coordinator back: whatever the
    storage, the code at the target returns at once. *)
Definition answer (r : Reaction) : bool :=
  match r with
  | Return success => success
  | Reenter _ _ _ _ => false
  end.

Definition quiet (requests : list ForwardRequest) : Prop :=
  forall req st, In req requests ->
    target_call st (to req) (gas req) (value req) (envelope req)
    = Return (answer (target_call st (to req) (gas req) (value req)
                                  (envelope req))).

(** The storage that the item at index [i] of a batch finds at its turn,
    when the items before it have all been executed. *)
Definition storage_at_turn (i : nat) (requests : list ForwardRequest)
    (signatures : list bytes) (s : State) : option State :=
  match executeBatch_loop (reentry call_depth) 0
          (take i (zip requests signatures))
          (replicate (length requests) false) 0 s with
  | Success _ s_i => Some s_i
  | Reverted _ _ => None
  end.

End Vocabulary.
End BatchSpec.

(** ** A small concrete world, used to run the contracts on examples *)

Module Scenario.
Import BatchExecutor BatchSpec.

(** A stand-in for keccak256 on 256 bits: the number written by the 32
    bytes that follow the first two, plus a polynomial checksum of the
    other bytes. On the preimage of a digest the 32 bytes are the domain
    separator and the rest is the struct hash. *)
Definition checksum (bs : bytes) : N :=
  fold_left (fun acc b => acc * 31 + b) bs 0.

Definition toy_keccak256 (bs : bytes) : N :=
  (be_decode (take 32 (drop 2 bs)) + checksum (take 2 bs ++ drop 34 bs))
  mod 2 ^ 256.

(** A stand-in for ecrecover, with the shape of the recovery of an ECDSA
    key: a signature [(r, s)] with [v] 27 or 28 names the digest [r] it was
    made for and its signer [s]; on its own digest it recovers to the
    signer, on another digest to the signer moved by the difference of
    the two digests, within the 160 bits of an address, which is the zero
    address when the difference cancels the signer. *)
Definition toy_ecrecover (dgst v r s : N) : address :=
  if (v =? 27) || (v =? 28)
  then (s + (2 ^ 256 + dgst - r)) mod 2 ^ 160
  else 0.

#[export] Instance toy_precompiles : Precompiles :=
  {| keccak256 := toy_keccak256; ecrecover := toy_ecrecover |}.

(** Targets with an even address succeed, the others fail; none calls the
    coordinator back. *)
#[export] Instance toy_world : World :=
  {| target_call := fun _ target _ _ _ => Return (N.even target);
     call_depth := 2 |}.

Definition toy_sign (separator : N) (signer : address) (req : ForwardRequest)
    : bytes :=
  word (digest separator req) ++ word signer ++ [27].

Definition alice : address := 7.
Definition bob : address := 8.
Definition relayer : address := 99.

Definition fresh : State :=
  {| DOMAIN_SEPARATOR := 1; nonces := ∅; events := [] |}.

Definition request (sender target : address) (n : uint256) : ForwardRequest :=
  {| from := sender; to := target; value := 0; gas := 50000; nonce := n;
     data := [1; 2; 3] |}.

(** Alice's ledger entry is already 1. *)
Definition used_once : State :=
  {| DOMAIN_SEPARATOR := 1; nonces := {[ alice := 1 ]}; events := [] |}.

(** A world in which the coordinator itself is deployed at [hub] and is
    the target of a request. Its [executeBatch] decodes the batch from the
    calldata and ignores the 20 bytes appended after it. The encoding is
    cut down to what the examples need: the first byte of the payload is
    the nonce of a request of Alice to the target 100, the 65 bytes that
    follow are the signature handed in with it. The call succeeds when
    the inner batch goes through. *)
Definition hub : address := 4242.

Definition inner_batch (calldata : bytes) : list ForwardRequest * list bytes :=
  match calldata with
  | n :: rest => ([request alice 100 n], [take 65 rest])
  | [] => ([], [])
  end.

Definition went_through (out : Error + list bool) : bool :=
  match out with
  | inr _ => true
  | inl _ => false
  end.

Definition nesting_world : World :=
  {| target_call := fun _ target _ _ calldata =>
       if target =? hub
       then Reenter hub (fst (inner_batch calldata)) (snd (inner_batch calldata))
                    (fun _ out => Return (went_through out))
       else Return (N.even target);
     call_depth := 3 |}.

(** Alice's request with nonce [n] to the coordinator itself: its payload
    is her request with nonce [inner] and her signature of it. *)
Definition through_hub (n inner : uint256) : ForwardRequest :=
  {| from := alice; to := hub; value := 0; gas := 90000; nonce := n;
     data := inner :: toy_sign 1 alice (request alice 100 inner) |}.

End Scenario.

(** ** Vocabulary of the properties of the sponsorship ledger *)

Module GasSpec.
Import GasSponsor.

Definition day (block_timestamp : uint256) : uint256 := block_timestamp / ONE_DAY.

(** Step 1: the reimbursement of a claim of [amount]. *)
Definition capped (s : State) (amount : uint256) : uint256 :=
  if maxPerClaim s <? amount then maxPerClaim s else amount.

(** What a daily counter counts on day [today]: the stored amount if it
    was stored on that day (or later), nothing if it is older. *)
Definition relayer_used (s : State) (today : uint256) (a : address) : uint256 :=
  if read (relayerLastClaimDay s) a <? today then 0
  else read (relayerDailyClaimed s) a.

Definition user_used (s : State) (today : uint256) (u : address) : uint256 :=
  if read (userLastSponsorDay s) u <? today then 0
  else read (userDailySponsored s) u.

Definition global_used (s : State) (today : uint256) : uint256 :=
  if globalLastClaimDay s <? today then 0 else globalDailyClaimed s.

(** The writes of the day rollover, as [claim] performs them. *)
Definition roll_relayer (today : uint256) (a : address) (s : State) : State :=
  if read (relayerLastClaimDay s) a <? today
  then set_relayerLastClaimDay a today (set_relayerDailyClaimed a 0 s)
  else s.

Definition roll_user (today : uint256) (u : address) (s : State) : State :=
  if read (userLastSponsorDay s) u <? today
  then set_userLastSponsorDay u today (set_userDailySponsored u 0 s)
  else s.

Definition roll_users (today : uint256) (users : list address) (s : State) : State :=
  fold_left (fun st u => roll_user today u st) users s.

Definition roll_global (today : uint256) (s : State) : State :=
  if globalLastClaimDay s <? today
  then set_globalLastClaimDay today (set_globalDailyClaimed 0 s)
  else s.

Definition charge_user (perUserCost : uint256) (u : address) (s : State) : State :=
  set_userDailySponsored u (read (userDailySponsored s) u + perUserCost) s.

Definition charge_users (perUserCost : uint256) (users : list address)
    (s : State) : State :=
  fold_left (fun st u => charge_user perUserCost u st) users s.

(** The storage once step 6 of a claim is done, before the transfer. *)
Definition tracked (s : State) (msg_sender : address) (today r per : uint256)
    (users : list address) : State :=
  let s3 := roll_global today (roll_users today users (roll_relayer today msg_sender s)) in
  let s4 := set_relayerDailyClaimed msg_sender
              (read (relayerDailyClaimed s3) msg_sender + r) s3 in
  let s5 := charge_users per users s4 in
  let s6 := set_globalDailyClaimed (globalDailyClaimed s5 + r) s5 in
  let s7 := set_totalClaimed (totalClaimed s6 + r) s6 in
  set_totalClaimCount (totalClaimCount s7 + 1) s7.

(** The storage after a claim that went through. *)
Definition settled (s : State) (msg_sender : address) (block_timestamp amount : uint256)
    (users : list address) : State :=
  let r := capped s amount in
  let n := N.of_nat (length users) in
  emit (Claimed msg_sender r users n)
    (pay msg_sender r (tracked s msg_sender (day block_timestamp) r (r / n) users)).

(** The checks of steps 2 to 6 of the claim protocol, on the storage
    before the call. *)
Definition checks_pass (s : State) (msg_sender : address)
    (block_timestamp amount : uint256) (users : list address) : bool :=
  let r := capped s amount in
  let today := day block_timestamp in
  let n := N.of_nat (length users) in
  negb (n =? 0)
  && (relayer_used s today msg_sender + r <=? dailyLimitPerRelayer s)
  && forallb (fun u => user_used s today u + r / n <=? dailyLimitPerUser s) users
  && (global_used s today + r <=? globalDailyLimit s)
  && (r <=? balance s).


(** The storage without the two beneficiary mappings: what the loops over
    the beneficiaries leave alone. *)
Definition without_users (s : State) : State :=
  {| owner := owner s; paused := paused s;
     whitelistedRelayers := whitelistedRelayers s;
     maxPerClaim := maxPerClaim s;
     dailyLimitPerRelayer := dailyLimitPerRelayer s;
     dailyLimitPerUser := dailyLimitPerUser s;
     globalDailyLimit := globalDailyLimit s;
     relayerDailyClaimed := relayerDailyClaimed s;
     relayerLastClaimDay := relayerLastClaimDay s;
     userDailySponsored := ∅;
     userLastSponsorDay := ∅;
     globalDailyClaimed := globalDailyClaimed s;
     globalLastClaimDay := globalLastClaimDay s;
     totalDeposited := totalDeposited s;
     totalClaimed := totalClaimed s;
     totalClaimCount := totalClaimCount s;
     balance := balance s; payments := payments s; events := events s |}.

(** How often a beneficiary is named in a claim. *)
Fixpoint occurrences (u : address) (users : list address) : N :=
  match users with
  | [] => 0
  | v :: rest => (if v =? u then 1 else 0) + occurrences u rest
  end.

Definition sum_N (l : list N) : N := foldr N.add 0 l.



End GasSpec.

(** ** A small sponsorship pool, used to run the contract on examples *)

Module PoolScenario.
Import GasSponsor.

Definition relayer : address := 99.
(** A whitelisted relayer that is a contract refusing value. *)
Definition vault : address := 66.
Definition alice : address := 7.
Definition bob : address := 8.

#[export] Instance toy_world : World :=
  {| transfer_call := fun _ recipient _ => negb (recipient =? vault) |}.

(** Pool of 100 with caps 5 per claim, 20 per relayer per day, 10 per
    user per day and 30 per day in all; nothing claimed yet. *)
Definition pool : State :=
  {| owner := 1; paused := false;
     whitelistedRelayers := {[ relayer := true; vault := true ]};
     maxPerClaim := 5;
     dailyLimitPerRelayer := 20;
     dailyLimitPerUser := 10;
     globalDailyLimit := 30;
     relayerDailyClaimed := ∅; relayerLastClaimDay := ∅;
     userDailySponsored := ∅; userLastSponsorDay := ∅;
     globalDailyClaimed := 0; globalLastClaimDay := 0;
     totalDeposited := 100; totalClaimed := 0; totalClaimCount := 0;
     balance := 100; payments := []; events := [] |}.

(** The same pool on day 3, when the counters of day 2 are still stored:
    the relayer has used 4, alice 9, and 28 have been claimed in all. *)
Definition stale_pool : State :=
  {| owner := 1; paused := false;
     whitelistedRelayers := {[ relayer := true; vault := true ]};
     maxPerClaim := 5;
     dailyLimitPerRelayer := 20;
     dailyLimitPerUser := 10;
     globalDailyLimit := 30;
     relayerDailyClaimed := {[ relayer := 4 ]};
     relayerLastClaimDay := {[ relayer := 2 ]};
     userDailySponsored := {[ alice := 9 ]};
     userLastSponsorDay := {[ alice := 2 ]};
     globalDailyClaimed := 28; globalLastClaimDay := 3;
     totalDeposited := 100; totalClaimed := 28; totalClaimCount := 7;
     balance := 72; payments := []; events := [] |}.

Definition day3 : uint256 := 3 * ONE_DAY + 10.

(** A second whitelisted relayer and a global cap of 8 a day. *)
Definition carol : address := 98.

Definition tight_pool : State :=
  {| owner := 1; paused := false;
     whitelistedRelayers := {[ relayer := true; carol := true ]};
     maxPerClaim := 5;
     dailyLimitPerRelayer := 20;
     dailyLimitPerUser := 10;
     globalDailyLimit := 8;
     relayerDailyClaimed := ∅; relayerLastClaimDay := ∅;
     userDailySponsored := ∅; userLastSponsorDay := ∅;
     globalDailyClaimed := 0; globalLastClaimDay := 0;
     totalDeposited := 100; totalClaimed := 0; totalClaimCount := 0;
     balance := 100; payments := []; events := [] |}.

(** A pool that holds only 3. *)
Definition short_pool : State :=
  {| owner := 1; paused := false;
     whitelistedRelayers := {[ relayer := true; vault := true ]};
     maxPerClaim := 5;
     dailyLimitPerRelayer := 20;
     dailyLimitPerUser := 10;
     globalDailyLimit := 30;
     relayerDailyClaimed := ∅; relayerLastClaimDay := ∅;
     userDailySponsored := ∅; userLastSponsorDay := ∅;
     globalDailyClaimed := 0; globalLastClaimDay := 0;
     totalDeposited := 3; totalClaimed := 0; totalClaimCount := 0;
     balance := 3; payments := []; events := [] |}.

(** A storage in which the relayer's counter of the day is the largest
    uint256. *)
Definition brimful_pool : State :=
  {| owner := 1; paused := false;
     whitelistedRelayers := {[ relayer := true; vault := true ]};
     maxPerClaim := 5;
     dailyLimitPerRelayer := 20;
     dailyLimitPerUser := 10;
     globalDailyLimit := 30;
     relayerDailyClaimed := {[ relayer := MAX_UINT256 ]};
     relayerLastClaimDay := {[ relayer := 3 ]};
     userDailySponsored := ∅; userLastSponsorDay := ∅;
     globalDailyClaimed := 0; globalLastClaimDay := 3;
     totalDeposited := 100; totalClaimed := 0; totalClaimCount := 0;
     balance := 100; payments := []; events := [] |}.

End PoolScenario.

(** ** contracts/BatchExecutor.sol (second part): the rest of GasSponsor *)

Module GasSponsorAdmin.
Import GasSponsor.

(** The events of the owner's functions. The log of the contract is kept in
    two parts: [events] of the storage holds [Deposited] and [Claimed],
    [admin_events] holds these, each part in the order of emission. *)
Inductive AdminEvent : Type :=
| RelayerStatusChanged (relayer : address) (whitelisted : bool)
| LimitsUpdated (maxPerClaim dailyLimitPerRelayer dailyLimitPerUser
                 globalDailyLimit : uint256)
| Paused (status : bool)
| OwnershipTransferred (oldOwner newOwner : address)
| EmergencyWithdrawal (owner : address) (amount : uint256).

Record Pool : Type := {
  storage : State;
  admin_events : list AdminEvent
}.

Definition set_owner (v : address) (s : State) : State :=
  {| owner := v; paused := paused s;
     whitelistedRelayers := whitelistedRelayers s;
     maxPerClaim := maxPerClaim s;
     dailyLimitPerRelayer := dailyLimitPerRelayer s;
     dailyLimitPerUser := dailyLimitPerUser s;
     globalDailyLimit := globalDailyLimit s;
     relayerDailyClaimed := relayerDailyClaimed s;
     relayerLastClaimDay := relayerLastClaimDay s;
     userDailySponsored := userDailySponsored s;
     userLastSponsorDay := userLastSponsorDay s;
     globalDailyClaimed := globalDailyClaimed s;
     globalLastClaimDay := globalLastClaimDay s;
     totalDeposited := totalDeposited s;
     totalClaimed := totalClaimed s;
     totalClaimCount := totalClaimCount s;
     balance := balance s; payments := payments s; events := events s |}.

Definition set_paused (v : bool) (s : State) : State :=
  {| owner := owner s; paused := v;
     whitelistedRelayers := whitelistedRelayers s;
     maxPerClaim := maxPerClaim s;
     dailyLimitPerRelayer := dailyLimitPerRelayer s;
     dailyLimitPerUser := dailyLimitPerUser s;
     globalDailyLimit := globalDailyLimit s;
     relayerDailyClaimed := relayerDailyClaimed s;
     relayerLastClaimDay := relayerLastClaimDay s;
     userDailySponsored := userDailySponsored s;
     userLastSponsorDay := userLastSponsorDay s;
     globalDailyClaimed := globalDailyClaimed s;
     globalLastClaimDay := globalLastClaimDay s;
     totalDeposited := totalDeposited s;
     totalClaimed := totalClaimed s;
     totalClaimCount := totalClaimCount s;
     balance := balance s; payments := payments s; events := events s |}.

Definition set_whitelistedRelayers (a : address) (v : bool) (s : State) : State :=
  {| owner := owner s; paused := paused s;
     whitelistedRelayers := <[a := v]> (whitelistedRelayers s);
     maxPerClaim := maxPerClaim s;
     dailyLimitPerRelayer := dailyLimitPerRelayer s;
     dailyLimitPerUser := dailyLimitPerUser s;
     globalDailyLimit := globalDailyLimit s;
     relayerDailyClaimed := relayerDailyClaimed s;
     relayerLastClaimDay := relayerLastClaimDay s;
     userDailySponsored := userDailySponsored s;
     userLastSponsorDay := userLastSponsorDay s;
     globalDailyClaimed := globalDailyClaimed s;
     globalLastClaimDay := globalLastClaimDay s;
     totalDeposited := totalDeposited s;
     totalClaimed := totalClaimed s;
     totalClaimCount := totalClaimCount s;
     balance := balance s; payments := payments s; events := events s |}.

Definition set_limits (perClaim perRelayer perUser global : uint256)
    (s : State) : State :=
  {| owner := owner s; paused := paused s;
     whitelistedRelayers := whitelistedRelayers s;
     maxPerClaim := perClaim;
     dailyLimitPerRelayer := perRelayer;
     dailyLimitPerUser := perUser;
     globalDailyLimit := global;
     relayerDailyClaimed := relayerDailyClaimed s;
     relayerLastClaimDay := relayerLastClaimDay s;
     userDailySponsored := userDailySponsored s;
     userLastSponsorDay := userLastSponsorDay s;
     globalDailyClaimed := globalDailyClaimed s;
     globalLastClaimDay := globalLastClaimDay s;
     totalDeposited := totalDeposited s;
     totalClaimed := totalClaimed s;
     totalClaimCount := totalClaimCount s;
     balance := balance s; payments := payments s; events := events s |}.

Definition write (f : State -> State) (p : Pool) : Pool :=
  {| storage := f (storage p); admin_events := admin_events p |}.

Definition emit_admin (e : AdminEvent) (p : Pool) : Pool :=
  {| storage := storage p; admin_events := admin_events p ++ [e] |}.

(** A function of the storage alone, run on the pool. *)
Definition on_storage {A} (m : Tx State A) : Tx Pool A :=
  fun p => match m (storage p) with
           | Success a s' => Success a (write (fun _ => s') p)
           | Reverted e d => Reverted e (write (fun _ => d) p)
           end.

Definition constructor (msg_sender : address)
    (_maxPerClaim _dailyLimitPerRelayer _dailyLimitPerUser _globalDailyLimit : uint256)
    : Pool :=
  {| storage :=
       {| owner := msg_sender; paused := false;
          whitelistedRelayers := ∅;
          maxPerClaim := _maxPerClaim;
          dailyLimitPerRelayer := _dailyLimitPerRelayer;
          dailyLimitPerUser := _dailyLimitPerUser;
          globalDailyLimit := _globalDailyLimit;
          relayerDailyClaimed := ∅; relayerLastClaimDay := ∅;
          userDailySponsored := ∅; userLastSponsorDay := ∅;
          globalDailyClaimed := 0; globalLastClaimDay := 0;
          totalDeposited := 0; totalClaimed := 0; totalClaimCount := 0;
          balance := 0; payments := []; events := [] |};
     admin_events := [] |}.

Section Contract.
Context `{World}.

(** modifier onlyOwner *)
Definition onlyOwner (msg_sender : address) : Tx Pool unit :=
  current <- gets (fun p => owner (storage p)) ;;
  require (msg_sender =? current) "GasSponsor: not owner".

Definition setRelayer (msg_sender relayer : address) (status : bool) : Tx Pool unit :=
  onlyOwner msg_sender ;;
  modify (write (set_whitelistedRelayers relayer status)) ;;
  modify (emit_admin (RelayerStatusChanged relayer status)).

Definition setLimits (msg_sender : address)
    (_maxPerClaim _dailyLimitPerRelayer _dailyLimitPerUser _globalDailyLimit : uint256)
    : Tx Pool unit :=
  onlyOwner msg_sender ;;
  modify (write (set_limits _maxPerClaim _dailyLimitPerRelayer
                            _dailyLimitPerUser _globalDailyLimit)) ;;
  modify (emit_admin (LimitsUpdated _maxPerClaim _dailyLimitPerRelayer
                                    _dailyLimitPerUser _globalDailyLimit)).

Definition setPaused (msg_sender : address) (_paused : bool) : Tx Pool unit :=
  onlyOwner msg_sender ;;
  modify (write (set_paused _paused)) ;;
  modify (emit_admin (Paused _paused)).

Definition transferOwnership (msg_sender newOwner : address) : Tx Pool unit :=
  onlyOwner msg_sender ;;
  require (negb (newOwner =? 0)) "GasSponsor: zero address" ;;
  old <- gets (fun p => owner (storage p)) ;;
  modify (emit_admin (OwnershipTransferred old newOwner)) ;;
  modify (write (set_owner newOwner)).

Definition emergencyWithdraw (msg_sender : address) : Tx Pool unit :=
  onlyOwner msg_sender ;;
  amount <- gets (fun p => balance (storage p)) ;;
  recipient <- gets (fun p => owner (storage p)) ;;
  sent <- gets (fun p => transfer_call (storage p) recipient amount) ;;
  (if sent then modify (write (pay recipient amount)) else ret tt) ;;
  require sent "GasSponsor: transfer failed" ;;
  current <- gets (fun p => owner (storage p)) ;;
  modify (emit_admin (EmergencyWithdrawal current amount)).

End Contract.


Definition getRelayerDailyRemaining (block_timestamp : uint256) (relayer : address)
    (s : State) : uint256 :=
  let today := block_timestamp / ONE_DAY in
  let claimed := if read (relayerLastClaimDay s) relayer <? today then 0
                 else read (relayerDailyClaimed s) relayer in
  if claimed <? dailyLimitPerRelayer s then dailyLimitPerRelayer s - claimed else 0.

Definition getUserDailyRemaining (block_timestamp : uint256) (user : address)
    (s : State) : uint256 :=
  let today := block_timestamp / ONE_DAY in
  let claimed := if read (userLastSponsorDay s) user <? today then 0
                 else read (userDailySponsored s) user in
  if claimed <? dailyLimitPerUser s then dailyLimitPerUser s - claimed else 0.

Definition getGlobalDailyRemaining (block_timestamp : uint256) (s : State) : uint256 :=
  let today := block_timestamp / ONE_DAY in
  let claimed := if globalLastClaimDay s <? today then 0 else globalDailyClaimed s in
  if claimed <? globalDailyLimit s then globalDailyLimit s - claimed else 0.

End GasSponsorAdmin.

(** ** SampleToken: how a target reads the sender of a forwarded call *)

Module SampleToken.

(** [calldataload(offset)]: the 32 bytes of the calldata from [offset] on,
    as a number; past the end of the calldata the bytes read as zero. *)
Definition calldataload (msg_data : bytes) (offset : nat) : N :=
  be_decode (take 32 (drop offset msg_data ++ replicate 32 0)).

Definition shr (shift value : N) : N := N.shiftr value shift.

Definition _msgSender (trustedForwarder msg_sender : address) (msg_data : bytes)
    : address :=
  if (msg_sender =? trustedForwarder) && (20 <=? N.of_nat (length msg_data))
  then shr 96 (calldataload msg_data (length msg_data - 20))
  else msg_sender.

End SampleToken.

(** ** Vocabulary of the properties over several calls *)

Module Runs.
Import BatchExecutor BatchSpec.

Section Batches.
Context `{Precompiles} `{World}.

(** One call of [executeBatch], and what it leaves committed. *)
Record Submission : Type := {
  submitter : address;
  submitted : list ForwardRequest;
  signed_with : list bytes
}.

Definition submit (b : Submission) (s : State) : State :=
  fst (commit (executeBatch (submitter b) (submitted b) (signed_with b)) s).

Definition submit_all (bs : list Submission) (s : State) : State :=
  fold_left (fun st b => submit b st) bs s.

(** The per-item records of a batch with the given outcomes. *)
Definition item_events (requests : list ForwardRequest) (results : list bool)
    : list Event :=
  zip_with (fun req ok => RequestExecuted (from req) (to req) (nonce req) ok)
           requests results.

Fixpoint count_true (results : list bool) : N :=
  match results with
  | [] => 0
  | ok :: rest => (if ok then 1 else 0) + count_true rest
  end.

End Batches.
End Runs.

Module PoolRuns.
Import GasSponsor GasSpec GasSponsorAdmin.

Section Calls.
Context `{World}.

(** A call of [claim], and what it leaves committed. *)
Record ClaimCall : Type := {
  caller : address;
  at_time : uint256;
  asked : uint256;
  named : list address
}.

Definition do_claim (c : ClaimCall) (s : State) : State :=
  fst (commit (claim (caller c) (at_time c) (asked c) (named c)) s).

Definition do_claims (cs : list ClaimCall) (s : State) : State :=
  fold_left (fun st c => do_claim c st) cs s.

(** What the pool has paid to [a], and in all. *)
Fixpoint paid_to (a : address) (ps : list (address * uint256)) : N :=
  match ps with
  | [] => 0
  | (recipient, v) :: rest => (if recipient =? a then v else 0) + paid_to a rest
  end.

Definition paid_total (ps : list (address * uint256)) : N := sum_N (map snd ps).

(** Any call of the contract that writes. *)
Inductive Call : Type :=
| Deposit (msg_sender : address) (msg_value : uint256)
| Receive (msg_sender : address) (msg_value : uint256)
| Claim (msg_sender : address) (block_timestamp amount : uint256)
        (users : list address)
| SetRelayer (msg_sender relayer : address) (status : bool)
| SetLimits (msg_sender : address) (perClaim perRelayer perUser global : uint256)
| SetPaused (msg_sender : address) (status : bool)
| TransferOwnership (msg_sender newOwner : address)
| EmergencyWithdraw (msg_sender : address).

Definition call_tx (c : Call) : Tx Pool unit :=
  match c with
  | Deposit a v => on_storage (deposit a v)
  | Receive a v => on_storage (receive a v)
  | Claim a t amount users => on_storage (claim a t amount users)
  | SetRelayer a r b => setRelayer a r b
  | SetLimits a c r u g => setLimits a c r u g
  | SetPaused a b => setPaused a b
  | TransferOwnership a n => transferOwnership a n
  | EmergencyWithdraw a => emergencyWithdraw a
  end.

Definition sender_of (c : Call) : address :=
  match c with
  | Deposit a _ | Receive a _ | Claim a _ _ _ | SetRelayer a _ _
  | SetLimits a _ _ _ _ | SetPaused a _ | TransferOwnership a _
  | EmergencyWithdraw a => a
  end.

Definition perform (c : Call) (p : Pool) : Pool := fst (commit (call_tx c) p).

Definition perform_all (cs : list Call) (p : Pool) : Pool :=
  fold_left (fun q c => perform c q) cs p.

(** What the owner alone decides. *)
Definition configuration (p : Pool)
    : address * bool * gmap address bool * (uint256 * uint256 * uint256 * uint256) :=
  (owner (storage p), paused (storage p), whitelistedRelayers (storage p),
   (maxPerClaim (storage p), dailyLimitPerRelayer (storage p),
    dailyLimitPerUser (storage p), globalDailyLimit (storage p))).

(** The amounts and the number of the records of each kind in the log. *)
Fixpoint deposited_in (log : list Event) : N :=
  match log with
  | [] => 0
  | Deposited _ v :: rest => v + deposited_in rest
  | Claimed _ _ _ _ :: rest => deposited_in rest
  end.

Fixpoint claimed_in (log : list Event) : N :=
  match log with
  | [] => 0
  | Deposited _ _ :: rest => claimed_in rest
  | Claimed _ v _ _ :: rest => v + claimed_in rest
  end.

Fixpoint claims_in (log : list Event) : N :=
  match log with
  | [] => 0
  | Deposited _ _ :: rest => claims_in rest
  | Claimed _ _ _ _ :: rest => 1 + claims_in rest
  end.

(** The fields a claim never writes. *)
Definition static (s : State)
    : address * bool * gmap address bool
      * (uint256 * uint256 * uint256 * uint256) * uint256 :=
  (owner s, paused s, whitelistedRelayers s,
   (maxPerClaim s, dailyLimitPerRelayer s, dailyLimitPerUser s, globalDailyLimit s),
   totalDeposited s).

(** A payment to a relayer on the whitelist of [p], within the cap of [p]. *)
Definition sponsored_payment (p : Pool) (q : address * uint256) : Prop :=
  read_flag (whitelistedRelayers (storage p)) (fst q) = true
  /\ snd q <= maxPerClaim (storage p).

(** The calls of the functions that carry [onlyOwner]. *)
Definition owner_only (c : Call) : bool :=
  match c with
  | Deposit _ _ | Receive _ _ | Claim _ _ _ _ => false
  | _ => true
  end.

(** What the owner has withdrawn, by the log of the owner's functions. *)
Fixpoint withdrawn_in (log : list AdminEvent) : N :=
  match log with
  | [] => 0
  | EmergencyWithdrawal _ v :: rest => v + withdrawn_in rest
  | _ :: rest => withdrawn_in rest
  end.

(** The totals of the storage agree with the log, and every wei deposited
    is in the pool, was paid to a relayer or was withdrawn by the owner. *)
Definition books_balance (p : Pool) : Prop :=
  let s := storage p in
  totalDeposited s = deposited_in (events s)
  /\ totalClaimed s = claimed_in (events s)
  /\ totalClaimCount s = claims_in (events s)
  /\ balance s + totalClaimed s + withdrawn_in (admin_events p) = totalDeposited s
  /\ paid_total (payments s) = totalClaimed s + withdrawn_in (admin_events p).

End Calls.
End PoolRuns.

(** ** More of the small worlds *)

Module MoreScenario.
Import GasSponsor GasSponsorAdmin PoolRuns PoolScenario.

Definition owner1 : address := 1.

Definition pool_of (s : State) : Pool := {| storage := s; admin_events := [] |}.

Definition new_pool : Pool := constructor owner1 5 20 10 30.

End MoreScenario.

(** * Properties of the batch coordinator *)

Module BatchProofs.
Import BatchExecutor BatchSpec.

Ltac tx_unfold :=
  unfold require, checked_add, checked_div in *;
  unfold bind, ret, gets, get, modify, revert in *.

Section Proofs.
Context `{Precompiles} `{World}.

Lemma getNonce_set_nonce a b n s :
  getNonce a (set_nonce b n s) = if decide (b = a) then n else getNonce a s.
Proof.
  unfold getNonce, set_nonce, read; simpl.
  rewrite lookup_insert. destruct (decide (b = a)); reflexivity.
Qed.

Lemma getNonce_emit a e s : getNonce a (emit e s) = getNonce a s.
Proof. reflexivity. Qed.

(** [verify] reads the storage and leaves it as it is. *)
Lemma verify_unfold req signature s :
  verify req signature s =
  if N.of_nat (length signature) =? 65 then
    let signer := ecrecover (digest (DOMAIN_SEPARATOR s) req)
                    (sig_v signature) (sig_r signature) (sig_s signature) in
    if signer =? 0
    then Reverted (RequireFailed "BatchExecutor: invalid signature") s
    else Success ((signer =? from req)
                  && (nonce req =? getNonce (from req) s)) s
  else Reverted (RequireFailed "BatchExecutor: invalid signature length") s.
Proof.
  unfold verify, _recoverSigner, getNonce. tx_unfold.
  destruct (N.of_nat (length signature) =? 65); [|reflexivity].
  simpl. destruct (ecrecover _ _ _ _ =? 0); reflexivity.
Qed.

Lemma verify_true_iff req signature s :
  verify req signature s = Success true s <->
  authentic (DOMAIN_SEPARATOR s) req signature = true
  /\ nonce req = getNonce (from req) s.
Proof.
  rewrite verify_unfold. unfold authentic.
  destruct (N.of_nat (length signature) =? 65); simpl.
  - destruct (ecrecover _ _ _ _ =? 0); simpl.
    + split; [discriminate | intros [? _]; discriminate].
    + rewrite <- N.eqb_eq.
      destruct (ecrecover _ _ _ _ =? from req); simpl.
      * destruct (nonce req =? getNonce (from req) s);
          split; try tauto; try discriminate. intros [_ ?]; discriminate.
      * split; [discriminate | intros [? _]; discriminate].
  - split; [discriminate | intros [? _]; discriminate].
Qed.

Lemma verify_outcome req signature s :
  (exists b, verify req signature s = Success b s)
  \/ (exists e, verify req signature s = Reverted e s).
Proof.
  rewrite verify_unfold.
  destruct (N.of_nat (length signature) =? 65); [|right; eauto].
  simpl. destruct (ecrecover _ _ _ _ =? 0); [right|left]; eauto.
Qed.

(** *** What a call of a target can do to the storage *)

Lemma executed_for_app a l1 l2 :
  executed_for a (l1 ++ l2) = executed_for a l1 + executed_for a l2.
Proof. induction l1 as [|[] l1 IH]; simpl; lia. Qed.

Lemma grows_refl s : grows s s.
Proof.
  split; [reflexivity|]. exists []. rewrite app_nil_r.
  split; [reflexivity|]. intros a. simpl. lia.
Qed.

Lemma grows_trans s1 s2 s3 : grows s1 s2 -> grows s2 s3 -> grows s1 s3.
Proof.
  intros (Hsep1 & log1 & Hlog1 & Hn1) (Hsep2 & log2 & Hlog2 & Hn2).
  split; [congruence|]. exists (log1 ++ log2).
  split; [rewrite Hlog2, Hlog1, app_assoc; reflexivity|].
  intros a. rewrite Hn2, Hn1, executed_for_app. lia.
Qed.

Lemma grows_le s s' a : grows s s' -> getNonce a s <= getNonce a s'.
Proof. intros (_ & log & _ & Hn). rewrite Hn. lia. Qed.

Section Entry.
Variable reenter : Entry.
Hypothesis reenter_sound : sound reenter.

Lemma run_grows r : forall s, grows s (snd (run reenter r s)).
Proof.
  induction r as [success|caller requests signatures continue IH]; intros s; simpl.
  - apply grows_refl.
  - eapply grows_trans; [apply reenter_sound|apply IH].
Qed.

Lemma call_grows req pre : grows pre (snd (call reenter req pre)).
Proof.
  unfold call. destruct (fst (run reenter _ pre)); simpl;
    [apply run_grows|apply grows_refl].
Qed.

End Entry.

(** A target that returns at once leaves the storage as it is. *)
Lemma call_quiet reenter req pre :
  target_call pre (to req) (gas req) (value req) (envelope req)
  = Return (answer (target_call pre (to req) (gas req) (value req) (envelope req))) ->
  call reenter req pre
  = (answer (target_call pre (to req) (gas req) (value req) (envelope req)), pre).
Proof.
  unfold call, envelope. intros Hquiet.
  destruct (target_call pre (to req) (gas req) (value req)
              (data req ++ be_bytes 20 (from req))) as [success|];
    [|discriminate].
  simpl. destruct success; reflexivity.
Qed.

(** One request: the ledger entry is written first, the target is called
    on the storage that already holds it. *)
Lemma _executeRequest_unfold reenter req s :
  _executeRequest reenter req s =
  if nonce req + 1 <=? MAX_UINT256 then
    let out := call reenter req (set_nonce (from req) (nonce req + 1) s) in
    Success (fst out)
      (emit (RequestExecuted (from req) (to req) (nonce req) (fst out)) (snd out))
  else Reverted (Panic ARITHMETIC_OVERFLOW) s.
Proof.
  unfold _executeRequest. tx_unfold.
  destruct (nonce req + 1 <=? MAX_UINT256); reflexivity.
Qed.

Lemma loop_cons reenter i req signature rest results successCount s :
  executeBatch_loop reenter i ((req, signature) :: rest) results successCount s =
  match turn reenter req signature s with
  | Success success s1 =>
      executeBatch_loop reenter (S i) rest (<[i := success]> results)
        (if success then successCount + 1 else successCount) s1
  | Reverted e d => Reverted e d
  end.
Proof.
  simpl. unfold turn. tx_unfold.
  destruct (verify req signature s) as [[|] s1|e d]; simpl; try reflexivity.
Qed.

Lemma turn_success reenter req signature s success s' :
  turn reenter req signature s = Success success s' ->
  authentic (DOMAIN_SEPARATOR s) req signature = true
  /\ nonce req = getNonce (from req) s
  /\ nonce req + 1 <= MAX_UINT256
  /\ success = fst (call reenter req (set_nonce (from req) (nonce req + 1) s))
  /\ s' = emit (RequestExecuted (from req) (to req) (nonce req) success)
            (snd (call reenter req (set_nonce (from req) (nonce req + 1) s))).
Proof.
  unfold turn. intros Hturn.
  destruct (verify_outcome req signature s) as [[b Hv]|[e Hv]];
    unfold bind in Hturn; rewrite Hv in Hturn; [|discriminate].
  destruct b; simpl in Hturn; [|discriminate].
  apply verify_true_iff in Hv as [Hauth Hnonce].
  rewrite _executeRequest_unfold in Hturn.
  destruct (nonce req + 1 <=? MAX_UINT256) eqn:Hle; [|discriminate].
  apply N.leb_le in Hle. cbv zeta in Hturn.
  injection Hturn as Hs Hs'. subst success. auto.
Qed.

Lemma turn_fails reenter req signature s :
  verify req signature s <> Success true s ->
  exists e d, turn reenter req signature s = Reverted e d.
Proof.
  intros Hbad. unfold turn, bind.
  destruct (verify_outcome req signature s) as [[b Hv]|[e Hv]];
    rewrite Hv; [|eauto].
  destruct b; simpl; [|eauto]. contradiction.
Qed.

Lemma turn_valid reenter req signature s :
  authentic (DOMAIN_SEPARATOR s) req signature = true ->
  nonce req = getNonce (from req) s ->
  nonce req < MAX_UINT256 ->
  let out := call reenter req (set_nonce (from req) (nonce req + 1) s) in
  turn reenter req signature s =
  Success (fst out)
    (emit (RequestExecuted (from req) (to req) (nonce req) (fst out)) (snd out)).
Proof.
  intros Hauth Hnonce Hmax. unfold turn, bind.
  assert (Hv : verify req signature s = Success true s)
    by (apply verify_true_iff; auto).
  rewrite Hv. simpl. rewrite _executeRequest_unfold.
  assert (Hle : (nonce req + 1 <=? MAX_UINT256) = true)
    by (apply N.leb_le; unfold MAX_UINT256 in *; lia).
  rewrite Hle. reflexivity.
Qed.

(** What one turn adds: the records of what the target had executed, then
    the record of the item, and one to the counter of its sender beside
    what those records account for. *)
Lemma turn_trace reenter req signature s success s' :
  sound reenter ->
  turn reenter req signature s = Success success s' ->
  DOMAIN_SEPARATOR s' = DOMAIN_SEPARATOR s
  /\ exists inner,
       events s'
       = events s ++ inner
         ++ [RequestExecuted (from req) (to req) (nonce req) success]
       /\ forall a, getNonce a s'
                    = getNonce a s + executed_for a inner
                      + (if from req =? a then 1 else 0).
Proof.
  intros Hsound Hturn.
  apply turn_success in Hturn as (_ & Hnonce & _ & _ & ->).
  destruct (call_grows reenter Hsound req
              (set_nonce (from req) (nonce req + 1) s))
    as (Hsep & inner & Hlog & Hcount).
  split; [exact Hsep|]. exists inner. split.
  - simpl. rewrite Hlog. simpl. rewrite <- app_assoc. reflexivity.
  - intros a. rewrite getNonce_emit, Hcount, getNonce_set_nonce.
    destruct (decide (from req = a)) as [Heq|Hne].
    + subst a. rewrite N.eqb_refl. lia.
    + apply N.eqb_neq in Hne. rewrite Hne. lia.
Qed.

Lemma turn_grows reenter req signature s success s' :
  sound reenter ->
  turn reenter req signature s = Success success s' -> grows s s'.
Proof.
  intros Hsound Hturn.
  destruct (turn_trace _ _ _ _ _ _ Hsound Hturn) as (Hsep & inner & Hlog & Hcount).
  split; [exact Hsep|]. eexists. split; [exact Hlog|].
  intros a. rewrite Hcount, executed_for_app. simpl. lia.
Qed.

(** *** The loop *)

Lemma loop_grows reenter items : forall i results successCount s out s',
  sound reenter ->
  executeBatch_loop reenter i items results successCount s = Success out s' ->
  grows s s'
  /\ length (fst out) = length results
  /\ forall a, getNonce a s + sent_by a (map fst items) <= getNonce a s'.
Proof.
  induction items as [|[req signature] rest IH];
    intros i results sc s out s' Hsound Hrun.
  - simpl in Hrun. injection Hrun as <- <-. simpl.
    split; [apply grows_refl|]. split; [reflexivity|]. intros a. lia.
  - rewrite loop_cons in Hrun.
    destruct (turn reenter req signature s) as [success s1|e d] eqn:Hturn;
      [|discriminate].
    destruct (turn_trace _ _ _ _ _ _ Hsound Hturn) as (_ & inner & _ & Hcount).
    pose proof (turn_grows _ _ _ _ _ _ Hsound Hturn) as Hgrows.
    apply IH in Hrun as (Hrest & Hlen & Hbound); [|exact Hsound].
    split; [eapply grows_trans; eassumption|].
    split; [rewrite Hlen; apply length_insert|].
    intros a. specialize (Hbound a). rewrite Hcount in Hbound. simpl.
    destruct (from req =? a); lia.
Qed.

Lemma loop_app reenter pre : forall post i results successCount s,
  executeBatch_loop reenter i (pre ++ post) results successCount s =
  match executeBatch_loop reenter i pre results successCount s with
  | Success out s' =>
      executeBatch_loop reenter (i + length pre) post (fst out) (snd out) s'
  | Reverted e d => Reverted e d
  end.
Proof.
  induction pre as [|[req signature] pre IH]; intros post i results sc s.
  - simpl. unfold ret. rewrite Nat.add_0_r. reflexivity.
  - simpl app. rewrite !loop_cons.
    destruct (turn reenter req signature s) as [success s1|e d]; [|reflexivity].
    rewrite IH. simpl length.
    replace (S i + length pre)%nat with (i + S (length pre))%nat by lia.
    reflexivity.
Qed.

(** An item that does not verify on the storage it finds at its turn
    stops the loop, wherever it stands. *)
Lemma loop_rejects reenter pre req signature post i results successCount s :
  (forall out s_i,
     executeBatch_loop reenter i pre results successCount s = Success out s_i ->
     verify req signature s_i <> Success true s_i) ->
  exists e d,
    executeBatch_loop reenter i (pre ++ (req, signature) :: post)
      results successCount s
    = Reverted e d.
Proof.
  intros Hbad. rewrite loop_app.
  destruct (executeBatch_loop reenter i pre results successCount s)
    as [out s_i|e d] eqn:Hpre; [|eauto].
  rewrite loop_cons.
  destruct (turn_fails reenter req signature s_i (Hbad out s_i eq_refl))
    as (e & d & ->).
  eauto.
Qed.

(** Every item of a loop that ran to its end was reached, verified on the
    storage it found, and is on the log with the answer of its target. *)
Lemma loop_trace reenter items :
  forall i results successCount s out s' j req signature,
  sound reenter ->
  executeBatch_loop reenter i items results successCount s = Success out s' ->
  items !! j = Some (req, signature) ->
  exists out_j s_j,
    executeBatch_loop reenter i (take j items) results successCount s
    = Success out_j s_j
    /\ authentic (DOMAIN_SEPARATOR s) req signature = true
    /\ nonce req = getNonce (from req) s_j
    /\ nonce req < MAX_UINT256
    /\ In (RequestExecuted (from req) (to req) (nonce req)
             (fst (call reenter req (set_nonce (from req) (nonce req + 1) s_j))))
          (events s').
Proof.
  induction items as [|[req0 sig0] rest IH];
    intros i results sc s out s' j req signature Hsound Hrun Hj; [discriminate|].
  rewrite loop_cons in Hrun.
  destruct (turn reenter req0 sig0 s) as [success s1|e d] eqn:Hturn; [|discriminate].
  destruct j as [|j].
  - simpl in Hj. injection Hj as -> ->.
    apply turn_success in Hturn as (Hauth & Hnonce & Hmax & Hsuccess & Hs1).
    exists (results, sc), s. split; [reflexivity|].
    split; [exact Hauth|]. split; [exact Hnonce|]. split; [lia|].
    apply loop_grows in Hrun as ((_ & log & Hlog & _) & _); [|exact Hsound].
    rewrite Hlog, Hs1, <- Hsuccess. simpl.
    apply in_or_app. left. apply in_or_app. right. left. reflexivity.
  - simpl in Hj.
    destruct (IH _ _ _ _ _ _ _ _ _ Hsound Hrun Hj)
      as (out_j & s_j & Hpre & Hauth & Hnonce & Hmax & Hin).
    exists out_j, s_j. split.
    + simpl take. rewrite loop_cons, Hturn. exact Hpre.
    + split; [|auto].
      destruct (turn_trace _ _ _ _ _ _ Hsound Hturn) as (Hsep & _).
      rewrite <- Hsep. exact Hauth.
Qed.

(** *** The whole call *)

Lemma body_unfold reenter msg_sender requests signatures s :
  executeBatch_body reenter msg_sender requests signatures s =
  if N.of_nat (length requests) =? N.of_nat (length signatures) then
    if 0 <? N.of_nat (length requests) then
      match executeBatch_loop reenter 0 (zip requests signatures)
              (replicate (length requests) false) 0 s with
      | Success out s' =>
          Success (fst out)
            (emit (BatchExecuted msg_sender (N.of_nat (length requests)) (snd out)) s')
      | Reverted e d => Reverted e d
      end
    else Reverted (RequireFailed "BatchExecutor: empty batch") s
  else Reverted (RequireFailed "BatchExecutor: length mismatch") s.
Proof.
  unfold executeBatch_body. tx_unfold.
  destruct (N.of_nat (length requests) =? N.of_nat (length signatures));
    [|reflexivity].
  destruct (0 <? N.of_nat (length requests)); [|reflexivity].
  destruct (executeBatch_loop _ _ _ _ _ s); reflexivity.
Qed.

Lemma body_sound reenter : sound reenter -> sound (executeBatch_body reenter).
Proof.
  intros Hsound caller requests signatures s. unfold commit.
  rewrite body_unfold.
  destruct (_ =? _); [|apply grows_refl].
  destruct (0 <? _); [|apply grows_refl].
  destruct (executeBatch_loop _ _ _ _ _ s) as [out s'|e d] eqn:Hrun;
    [|apply grows_refl].
  apply loop_grows in Hrun as ((Hsep & log & Hlog & Hcount) & _); [|exact Hsound].
  simpl. split; [exact Hsep|].
  exists (log ++ [BatchExecuted caller (N.of_nat (length requests)) (snd out)]).
  split; [simpl; rewrite Hlog, <- app_assoc; reflexivity|].
  intros a. rewrite getNonce_emit, Hcount, executed_for_app. simpl. lia.
Qed.

Lemma sound_full_stack : sound (fun _ _ _ => revert call_not_made).
Proof. intros caller requests signatures s. apply grows_refl. Qed.

Lemma reentry_sound depth : sound (reentry depth).
Proof.
  induction depth as [|depth IH]; [apply sound_full_stack|].
  simpl. destruct depth as [|below]; simpl in *; apply body_sound; exact IH.
Qed.

Lemma executeBatch_at_unfold depth :
  executeBatch_at depth = executeBatch_body (reentry depth).
Proof. destruct depth; reflexivity. Qed.

Lemma executeBatch_unfold msg_sender requests signatures s :
  executeBatch msg_sender requests signatures s =
  if N.of_nat (length requests) =? N.of_nat (length signatures) then
    if 0 <? N.of_nat (length requests) then
      match executeBatch_loop (reentry call_depth) 0 (zip requests signatures)
              (replicate (length requests) false) 0 s with
      | Success out s' =>
          Success (fst out)
            (emit (BatchExecuted msg_sender (N.of_nat (length requests)) (snd out)) s')
      | Reverted e d => Reverted e d
      end
    else Reverted (RequireFailed "BatchExecutor: empty batch") s
  else Reverted (RequireFailed "BatchExecutor: length mismatch") s.
Proof. unfold executeBatch. rewrite executeBatch_at_unfold. apply body_unfold. Qed.

(** Whatever the targets do, a call of [executeBatch] keeps the
    separator, extends the log and raises each counter by the number of
    executions the extension records. *)
Lemma executeBatch_sound : sound executeBatch.
Proof.
  unfold executeBatch. rewrite executeBatch_at_unfold.
  apply body_sound, reentry_sound.
Qed.

Lemma zip_middle (requests : list ForwardRequest) (signatures : list bytes)
    i req signature :
  length requests = length signatures ->
  requests !! i = Some req -> signatures !! i = Some signature ->
  zip requests signatures =
  zip (take i requests) (take i signatures)
  ++ (req, signature) :: zip (drop (S i) requests) (drop (S i) signatures)
  /\ map fst (zip (take i requests) (take i signatures)) = take i requests.
Proof.
  intros Hlen Hreq Hsig. split.
  - rewrite <- (take_drop_middle requests i req Hreq) at 1.
    rewrite <- (take_drop_middle signatures i signature Hsig) at 1.
    rewrite zip_with_app; [reflexivity|].
    rewrite !length_take. lia.
  - apply fst_zip. rewrite !length_take. lia.
Qed.

Lemma zip_item (requests : list ForwardRequest) (signatures : list bytes)
    i req signature :
  length requests = length signatures ->
  requests !! i = Some req -> signatures !! i = Some signature ->
  zip requests signatures !! i = Some (req, signature)
  /\ take i (zip requests signatures) = zip (take i requests) (take i signatures)
  /\ map fst (take i (zip requests signatures)) = take i requests.
Proof.
  intros Hlen Hreq Hsig.
  destruct (zip_middle requests signatures i req signature Hlen Hreq Hsig)
    as [Hzip Htake].
  assert (Hpre : length (zip (take i requests) (take i signatures)) = i).
  { rewrite length_zip_with, !length_take.
    apply lookup_lt_Some in Hreq. lia. }
  split; [rewrite Hzip; apply list_lookup_middle; symmetry; exact Hpre|].
  assert (Hcut : take i (zip requests signatures)
                 = zip (take i requests) (take i signatures))
    by (rewrite Hzip at 1; apply take_app_length'; symmetry; exact Hpre).
  split; [exact Hcut|]. rewrite Hcut. exact Htake.
Qed.

Lemma storage_at_turn_unfold i requests signatures s s_i :
  storage_at_turn i requests signatures s = Some s_i <->
  exists out,
    executeBatch_loop (reentry call_depth) 0 (take i (zip requests signatures))
      (replicate (length requests) false) 0 s
    = Success out s_i.
Proof.
  unfold storage_at_turn.
  destruct (executeBatch_loop _ _ _ _ _ s) as [out s'|e d]; split.
  - intros Heq. injection Heq as <-. eauto.
  - intros [out' Heq]. injection Heq as _ <-. reflexivity.
  - discriminate.
  - intros [out' Heq]. discriminate.
Qed.

Lemma storage_at_turn_grows i requests signatures s s_i :
  storage_at_turn i requests signatures s = Some s_i -> grows s s_i.
Proof.
  intros Hturn. apply storage_at_turn_unfold in Hturn as [out Hrun].
  apply loop_grows in Hrun as (Hgrows & _); [exact Hgrows|apply reentry_sound].
Qed.

(** A batch with an item that does not verify on the storage it finds at
    its turn reverts. *)
Lemma executeBatch_rejects msg_sender s requests signatures i req signature :
  requests !! i = Some req ->
  signatures !! i = Some signature ->
  (forall s_i, storage_at_turn i requests signatures s = Some s_i ->
     verify req signature s_i <> Success true s_i) ->
  exists e d, executeBatch msg_sender requests signatures s = Reverted e d.
Proof.
  intros Hreq Hsig Hbad. rewrite executeBatch_unfold.
  destruct (N.of_nat (length requests) =? N.of_nat (length signatures)) eqn:Hlen;
    [|eauto].
  apply N.eqb_eq, Nat2N.inj in Hlen.
  destruct (0 <? N.of_nat (length requests)); [|eauto].
  destruct (zip_middle requests signatures i req signature Hlen Hreq Hsig)
    as [Hzip _].
  destruct (zip_item requests signatures i req signature Hlen Hreq Hsig)
    as (_ & Hcut & _).
  rewrite Hzip.
  edestruct (loop_rejects (reentry call_depth)
               (zip (take i requests) (take i signatures)) req signature)
    as (e & d & ->); [|eauto].
  intros out s_i Hpre. apply Hbad, storage_at_turn_unfold.
  exists out. rewrite Hcut. exact Hpre.
Qed.

(** A stale nonce stays stale: the counters never go down. *)
Lemma executeBatch_rejects_stale msg_sender s requests signatures i req signature :
  requests !! i = Some req ->
  signatures !! i = Some signature ->
  nonce req < getNonce (from req) s ->
  exists e d, executeBatch msg_sender requests signatures s = Reverted e d.
Proof.
  intros Hreq Hsig Hstale.
  apply (executeBatch_rejects msg_sender s requests signatures i req signature
           Hreq Hsig).
  intros s_i Hturn Hverify.
  apply verify_true_iff in Hverify as [_ Hnonce].
  apply storage_at_turn_grows in Hturn.
  pose proof (grows_le _ _ (from req) Hturn). lia.
Qed.

Lemma executeBatch_rejects_forged msg_sender s requests signatures i req signature :
  requests !! i = Some req ->
  signatures !! i = Some signature ->
  authentic (DOMAIN_SEPARATOR s) req signature = false ->
  exists e d, executeBatch msg_sender requests signatures s = Reverted e d.
Proof.
  intros Hreq Hsig Hforged.
  apply (executeBatch_rejects msg_sender s requests signatures i req signature
           Hreq Hsig).
  intros s_i Hturn Hverify.
  apply verify_true_iff in Hverify as [Hauth _].
  apply storage_at_turn_grows in Hturn as (Hsep & _).
  rewrite Hsep in Hauth. congruence.
Qed.

Lemma commit_reverted {A} (m : Tx State A) s :
  (exists e d, m s = Reverted e d) -> exists e, commit m s = (s, inl e).
Proof. intros (e & d & Hm). unfold commit. rewrite Hm. eauto. Qed.

Lemma sent_by_app a l1 l2 : sent_by a (l1 ++ l2) = sent_by a l1 + sent_by a l2.
Proof. induction l1 as [|r l1 IH]; simpl; [reflexivity|]. rewrite IH. lia. Qed.

(** What a batch that went through has done, item by item. *)
Lemma executeBatch_inv msg_sender s requests signatures s' results :
  commit (executeBatch msg_sender requests signatures) s = (s', inr results) ->
  length requests = length signatures
  /\ requests <> []
  /\ exists out s_n,
       executeBatch_loop (reentry call_depth) 0 (zip requests signatures)
         (replicate (length requests) false) 0 s = Success out s_n
       /\ results = fst out
       /\ s' = emit (BatchExecuted msg_sender (N.of_nat (length requests)) (snd out))
                 s_n.
Proof.
  unfold commit. rewrite executeBatch_unfold.
  destruct (N.of_nat (length requests) =? N.of_nat (length signatures)) eqn:Hlen;
    [|discriminate].
  apply N.eqb_eq, Nat2N.inj in Hlen.
  destruct (0 <? N.of_nat (length requests)) eqn:Hpos; [|discriminate].
  apply N.ltb_lt in Hpos.
  destruct (executeBatch_loop _ _ _ _ _ s) as [out s_n|e d] eqn:Hrun; [|discriminate].
  intros Heq. injection Heq as <- <-.
  split; [exact Hlen|]. split; [intros ->; simpl in Hpos; lia|].
  exists out, s_n. auto.
Qed.

(** Once a batch has gone through, the ledger is past the nonce of each
    of its items. *)
Lemma consumed_is_stale msg_sender s requests signatures s' results i req :
  commit (executeBatch msg_sender requests signatures) s = (s', inr results) ->
  requests !! i = Some req ->
  nonce req < getNonce (from req) s'.
Proof.
  intros Hrun Hreq.
  apply executeBatch_inv in Hrun as (Hlen & _ & out & s_n & Hloop & _ & ->).
  assert (Hi : (i < length requests)%nat) by (eapply lookup_lt_Some; eassumption).
  destruct (lookup_lt_is_Some_2 signatures i) as [signature Hsig];
    [rewrite <- Hlen; exact Hi|].
  destruct (zip_middle requests signatures i req signature Hlen Hreq Hsig)
    as [Hzip _].
  rewrite Hzip, loop_app in Hloop.
  destruct (executeBatch_loop _ _ (zip (take i requests) (take i signatures)) _ _ s)
    as [out_i s_i|e d]; [|discriminate].
  rewrite loop_cons in Hloop.
  destruct (turn _ req signature s_i) as [success s1|e d] eqn:Hturn; [|discriminate].
  pose proof (turn_success _ _ _ _ _ _ Hturn) as (_ & Hnonce & _).
  destruct (turn_trace _ _ _ _ _ _ (reentry_sound call_depth) Hturn)
    as (_ & inner & _ & Hcount).
  apply loop_grows in Hloop as (Hrest & _); [|apply reentry_sound].
  pose proof (grows_le _ _ (from req) Hrest) as Hle.
  rewrite getNonce_emit. rewrite Hcount, N.eqb_refl in Hle. lia.
Qed.

(** *** Targets that do not call back *)

Lemma quiet_cons req requests :
  quiet (req :: requests) ->
  (forall st, target_call st (to req) (gas req) (value req) (envelope req)
              = Return (answer (target_call st (to req) (gas req) (value req)
                                            (envelope req))))
  /\ quiet requests.
Proof.
  intros Hquiet. split.
  - intros st. apply Hquiet. left. reflexivity.
  - intros r st Hin. apply Hquiet. right. exact Hin.
Qed.

Lemma quiet_take i requests : quiet requests -> quiet (take i requests).
Proof.
  intros Hquiet req st Hin. apply Hquiet.
  rewrite <- (take_drop i requests). apply in_or_app. left. exact Hin.
Qed.

Lemma loop_ledger_quiet reenter items : forall i results successCount s out s',
  quiet (map fst items) ->
  executeBatch_loop reenter i items results successCount s = Success out s' ->
  forall a, getNonce a s' = getNonce a s + sent_by a (map fst items).
Proof.
  induction items as [|[req signature] rest IH];
    intros i results sc s out s' Hquiet Hrun a.
  - simpl in Hrun. injection Hrun as <- <-. simpl. lia.
  - rewrite loop_cons in Hrun.
    destruct (turn reenter req signature s) as [success s1|e d] eqn:Hturn;
      [|discriminate].
    simpl map in Hquiet. apply quiet_cons in Hquiet as [Hreq Hrest].
    apply turn_success in Hturn as (_ & Hnonce & _ & _ & Hs1).
    rewrite call_quiet in Hs1 by apply Hreq. simpl snd in Hs1.
    rewrite (IH _ _ _ _ _ _ Hrest Hrun a), Hs1, getNonce_emit, getNonce_set_nonce.
    simpl. destruct (decide (from req = a)) as [Heq|Hne].
    + subst a. rewrite N.eqb_refl. lia.
    + apply N.eqb_neq in Hne. rewrite Hne. lia.
Qed.

(** *** The properties *)

(** C1: a batch with an item whose verification fails is rejected as a
    whole, wherever the item stands: its signature does not authenticate
    the sender, or its nonce is already behind the ledger, or its nonce is
    not the entry that the ledger holds when its turn comes (after the
    earlier items and whatever their targets had the coordinator execute).
    The committed storage is the storage before the call, so no nonce is
    consumed and no invocation is recorded. *)
Theorem executeBatch_invalid_item_rejects_batch
    msg_sender s requests signatures i req signature :
  requests !! i = Some req ->
  signatures !! i = Some signature ->
  authentic (DOMAIN_SEPARATOR s) req signature = false
  \/ nonce req < getNonce (from req) s
  \/ (forall s_i, storage_at_turn i requests signatures s = Some s_i ->
        nonce req <> getNonce (from req) s_i) ->
  exists e,
    commit (executeBatch msg_sender requests signatures) s = (s, inl e).
Proof.
  intros Hreq Hsig [Hforged|[Hstale|Hturn]]; apply commit_reverted.
  - eapply executeBatch_rejects_forged; eassumption.
  - eapply executeBatch_rejects_stale; eassumption.
  - eapply executeBatch_rejects; [eassumption|eassumption|].
    intros s_i Hs_i Hverify. apply verify_true_iff in Hverify as [_ Hnonce].
    exact (Hturn s_i Hs_i Hnonce).
Qed.

(** C3, as the contract has it: in a batch that goes through, every item
    found the ledger at its own nonce when its turn came, its target was
    called on a storage whose entry for the sender was already
    [nonce + 1], and the call is on the log with its outcome, whatever the
    outcome. At the end the counter of every sender has grown by exactly
    the number of executions of its requests that the call has logged:
    those of the items of the batch and those of the batches that the
    targets had the coordinator execute meanwhile. That is at least the
    number of its items in the batch, and exactly that number when no
    target calls the coordinator back. *)
Theorem executeBatch_consumes_each_nonce_once
    msg_sender s requests signatures s' results :
  commit (executeBatch msg_sender requests signatures) s = (s', inr results) ->
  length results = length requests
  /\ (forall i req, requests !! i = Some req ->
        exists s_i,
          storage_at_turn i requests signatures s = Some s_i
          /\ nonce req = getNonce (from req) s_i
          /\ exists st,
               getNonce (from req) st = nonce req + 1
               /\ In (RequestExecuted (from req) (to req) (nonce req)
                        (fst (call (reentry call_depth) req st)))
                     (events s'))
  /\ (exists log,
        events s' = events s ++ log
        /\ forall a, getNonce a s' = getNonce a s + executed_for a log)
  /\ (forall a, getNonce a s + sent_by a requests <= getNonce a s')
  /\ (quiet requests ->
      forall a, getNonce a s' = getNonce a s + sent_by a requests).
Proof.
  intros Hrun.
  pose proof (executeBatch_sound msg_sender requests signatures s) as Hgrows.
  rewrite Hrun in Hgrows. simpl in Hgrows.
  apply executeBatch_inv in Hrun as (Hlen & _ & out & s_n & Hloop & -> & ->).
  pose proof (loop_grows _ _ _ _ _ _ _ _ (reentry_sound call_depth) Hloop)
    as (_ & Hres & Hbound).
  assert (Hfst : map fst (zip requests signatures) = requests)
    by (apply fst_zip; lia).
  rewrite Hfst in Hbound.
  split; [rewrite Hres; apply length_replicate|].
  split; [|split; [exact (proj2 Hgrows)|split]].
  - intros i req Hreq.
    assert (Hi : (i < length requests)%nat) by (eapply lookup_lt_Some; eassumption).
    destruct (lookup_lt_is_Some_2 signatures i) as [signature Hsig];
      [rewrite <- Hlen; exact Hi|].
    destruct (zip_item requests signatures i req signature Hlen Hreq Hsig)
      as (Hitem & _).
    destruct (loop_trace _ _ _ _ _ _ _ _ _ _ _ (reentry_sound call_depth)
                Hloop Hitem)
      as (out_i & s_i & Hpre & _ & Hnonce & _ & Hin).
    exists s_i. split; [apply storage_at_turn_unfold; eauto|].
    split; [exact Hnonce|].
    exists (set_nonce (from req) (nonce req + 1) s_i). split.
    + rewrite getNonce_set_nonce. destruct (decide _); congruence.
    + simpl. apply in_or_app. left. exact Hin.
  - intros a. rewrite getNonce_emit. apply Hbound.
  - intros Hquiet a. rewrite getNonce_emit.
    rewrite (loop_ledger_quiet _ _ _ _ _ _ _ _ ltac:(rewrite Hfst; exact Hquiet)
               Hloop a), Hfst.
    reflexivity.
Qed.

(** C7: a request whose nonce the ledger has already passed does not
    verify any more, although its signature is still authentic:
    [verify] returns false, the batch made of it alone is rejected with
    the nonce error of [executeBatch], every batch that contains it is
    rejected, and the committed storage, ledger included, is the one
    before the call. *)
Theorem consumed_request_is_rejected s req signature :
  nonce req < getNonce (from req) s ->
  authentic (DOMAIN_SEPARATOR s) req signature = true ->
  verify req signature s = Success false s
  /\ (forall msg_sender,
        commit (executeBatch msg_sender [req] [signature]) s
        = (s, inl (RequireFailed "BatchExecutor: invalid signature or nonce")))
  /\ (forall msg_sender requests signatures i,
        requests !! i = Some req ->
        signatures !! i = Some signature ->
        exists e,
          commit (executeBatch msg_sender requests signatures) s = (s, inl e)).
Proof.
  intros Hstale Hauth.
  assert (Hverify : verify req signature s = Success false s).
  { rewrite verify_unfold. unfold authentic in Hauth.
    apply andb_true_iff in Hauth as [Hauth Hfrom].
    apply andb_true_iff in Hauth as [Hlen Hzero].
    rewrite Hlen. simpl. apply negb_true_iff in Hzero. rewrite Hzero, Hfrom.
    assert (Hne : (nonce req =? getNonce (from req) s) = false)
      by (apply N.eqb_neq; lia).
    rewrite Hne. reflexivity. }
  split; [exact Hverify|split].
  - intros msg_sender. unfold commit. rewrite executeBatch_unfold.
    change (zip [req] [signature]) with [(req, signature)].
    rewrite loop_cons. unfold turn, bind. rewrite Hverify. reflexivity.
  - intros msg_sender requests signatures i Hreq Hsig.
    apply commit_reverted.
    eapply executeBatch_rejects_stale; eassumption.
Qed.


End Proofs.

(** *** The properties at work *)

Import Scenario.

(** Scenario A: one signed request with nonce 0 on a fresh ledger. *)
Example scenario_A :
  commit (executeBatch relayer [request alice 100 0]
                       [toy_sign 1 alice (request alice 100 0)]) fresh
  = ({| DOMAIN_SEPARATOR := 1; nonces := {[ alice := 1 ]};
        events := [RequestExecuted alice 100 0 true; BatchExecuted relayer 1 1] |},
     inr [true]).
Proof. vm_compute. reflexivity. Qed.

(** A target that fails does not stop the batch and does not keep the
    nonce from being consumed. *)
Example failing_target_still_consumes :
  commit (executeBatch relayer [request alice 101 0; request bob 100 0]
            [toy_sign 1 alice (request alice 101 0);
             toy_sign 1 bob (request bob 100 0)]) fresh
  = ({| DOMAIN_SEPARATOR := 1; nonces := {[ alice := 1; bob := 1 ]};
        events := [RequestExecuted alice 101 0 false;
                   RequestExecuted bob 100 0 true;
                   BatchExecuted relayer 2 1] |},
     inr [false; true]).
Proof. vm_compute. reflexivity. Qed.

(** The second item replays the nonce of the first. When it is reached
    the first item has been processed (the storage at the point of
    failure holds its nonce and its invocation), yet nothing of it is
    committed. *)
Example rollback_of_processed_items :
  let requests := [request alice 100 0; request alice 102 0] in
  let signatures := [toy_sign 1 alice (request alice 100 0);
                     toy_sign 1 alice (request alice 102 0)] in
  executeBatch relayer requests signatures fresh
  = Reverted (RequireFailed "BatchExecutor: invalid signature or nonce")
      {| DOMAIN_SEPARATOR := 1; nonces := {[ alice := 1 ]};
         events := [RequestExecuted alice 100 0 true] |}
  /\ commit (executeBatch relayer requests signatures) fresh
     = (fresh, inl (RequireFailed "BatchExecutor: invalid signature or nonce")).
Proof. vm_compute. split; reflexivity. Qed.

(** Scenario B: the request of scenario A is submitted again. *)
Example scenario_B :
  commit (executeBatch relayer [request alice 100 0]
                       [toy_sign 1 alice (request alice 100 0)]) used_once
  = (used_once, inl (RequireFailed "BatchExecutor: invalid signature or nonce"))
  /\ getNonce alice used_once = 1.
Proof. vm_compute. split; reflexivity. Qed.

(** The coordinator as a target. Alice's first request has the
    coordinator execute her request with nonce 1, so that her request with
    nonce 2 finds the ledger at 2 when its turn comes: the batch goes
    through, with the records of the inner batch before the record of the
    first item. Her request with nonce 1 in second place finds the ledger
    at 2 and the batch is rejected. *)
Example a_target_moves_the_ledger :
  commit (@executeBatch toy_precompiles nesting_world relayer
            [through_hub 0 1; request alice 100 2]
            [toy_sign 1 alice (through_hub 0 1);
             toy_sign 1 alice (request alice 100 2)]) fresh
  = ({| DOMAIN_SEPARATOR := 1; nonces := {[ alice := 3 ]};
        events := [RequestExecuted alice 100 1 true; BatchExecuted hub 1 1;
                   RequestExecuted alice hub 0 true;
                   RequestExecuted alice 100 2 true;
                   BatchExecuted relayer 2 2] |},
     inr [true; true])
  /\ commit (@executeBatch toy_precompiles nesting_world relayer
               [through_hub 0 1; request alice 100 1]
               [toy_sign 1 alice (through_hub 0 1);
                toy_sign 1 alice (request alice 100 1)]) fresh
     = (fresh, inl (RequireFailed "BatchExecutor: invalid signature or nonce")).
Proof. vm_compute. split; reflexivity. Qed.

(** When the inner batch is rejected the call of the target fails, what
    it had written is undone, and the item is recorded as failed. *)
Example a_failed_target_leaves_no_trace :
  commit (@executeBatch toy_precompiles nesting_world relayer
            [through_hub 0 5; request alice 100 1]
            [toy_sign 1 alice (through_hub 0 5);
             toy_sign 1 alice (request alice 100 1)]) fresh
  = ({| DOMAIN_SEPARATOR := 1; nonces := {[ alice := 2 ]};
        events := [RequestExecuted alice hub 0 false;
                   RequestExecuted alice 100 1 true;
                   BatchExecuted relayer 2 1] |},
     inr [false; true]).
Proof. vm_compute. reflexivity. Qed.

Lemma executeBatch_invalid_item_rejects_batch_witness :
  exists e,
    commit (executeBatch relayer
              [request alice 100 0; request bob 100 0; request alice 102 0]
              [toy_sign 1 alice (request alice 100 0);
               toy_sign 1 bob (request bob 100 0);
               toy_sign 1 alice (request alice 102 0)]) fresh
    = (fresh, inl e).
Proof.
  apply (executeBatch_invalid_item_rejects_batch relayer fresh
           [request alice 100 0; request bob 100 0; request alice 102 0]
           [toy_sign 1 alice (request alice 100 0);
            toy_sign 1 bob (request bob 100 0);
            toy_sign 1 alice (request alice 102 0)] 2%nat
           (request alice 102 0) (toy_sign 1 alice (request alice 102 0))).
  - reflexivity.
  - reflexivity.
  - right. right. intros s_i Hturn. vm_compute in Hturn.
    injection Hturn as <-. vm_compute. discriminate.
Defined.

(** One item of Alice, whose target is the coordinator itself, and
    Alice's counter is 2 after the batch: the inner batch has consumed a
    nonce of hers as well. *)
Lemma one_item_raises_the_counter_by_two :
  snd (commit (@executeBatch toy_precompiles nesting_world relayer
                 [through_hub 0 1] [toy_sign 1 alice (through_hub 0 1)]) fresh)
  = inr [true]
  /\ getNonce alice fresh = 0
  /\ getNonce alice
       (fst (commit (@executeBatch toy_precompiles nesting_world relayer
                       [through_hub 0 1] [toy_sign 1 alice (through_hub 0 1)])
               fresh))
     = 2.
Proof. vm_compute. split; [reflexivity|split; reflexivity]. Qed.

Lemma toy_targets_are_quiet requests : @quiet toy_world requests.
Proof. intros req st Hin. reflexivity. Qed.

Lemma executeBatch_consumes_each_nonce_once_witness :
  getNonce alice
    (fst (commit (executeBatch relayer [request alice 101 0; request bob 100 0]
                    [toy_sign 1 alice (request alice 101 0);
                     toy_sign 1 bob (request bob 100 0)]) fresh))
  = getNonce alice fresh + sent_by alice [request alice 101 0; request bob 100 0].
Proof.
  destruct (executeBatch_consumes_each_nonce_once relayer fresh
              [request alice 101 0; request bob 100 0]
              [toy_sign 1 alice (request alice 101 0);
               toy_sign 1 bob (request bob 100 0)]
              (fst (commit (executeBatch relayer [request alice 101 0; request bob 100 0]
                              [toy_sign 1 alice (request alice 101 0);
                               toy_sign 1 bob (request bob 100 0)]) fresh))
              [false; true])
    as (_ & _ & _ & _ & Hledger).
  - vm_compute. reflexivity.
  - exact (Hledger (toy_targets_are_quiet _) alice).
Defined.

Lemma consumed_request_is_rejected_witness :
  verify (request alice 100 0) (toy_sign 1 alice (request alice 100 0)) used_once
  = Success false used_once.
Proof.
  apply (consumed_request_is_rejected used_once (request alice 100 0)
           (toy_sign 1 alice (request alice 100 0))).
  - vm_compute. reflexivity.
  - vm_compute. reflexivity.
Defined.


(** Two instance identities whose domain encodings have the same hash:
    the signature made for the one verifies at the other. *)
Example domains_with_one_separator :
  domain_separator "BatchExecutor" "1" 11155111 256
  = domain_separator "BatchExecutor" "1" 11155111 31
  /\ verify (request alice 100 0)
       (toy_sign (domain_separator "BatchExecutor" "1" 11155111 256) alice
                 (request alice 100 0))
       (constructor 11155111 31)
     = Success true (constructor 11155111 31).
Proof. vm_compute. split; reflexivity. Qed.


(** The encoding of a word. *)
Lemma length_be_bytes w : forall n, length (be_bytes w n) = w.
Proof.
  induction w as [|w IH]; intros n; simpl; [reflexivity|].
  rewrite length_app, IH. simpl. lia.
Qed.

Lemma be_decode_snoc bs b : be_decode (bs ++ [b]) = be_decode bs * 256 + b.
Proof. unfold be_decode. rewrite fold_left_app. reflexivity. Qed.

Lemma be_decode_be_bytes w : forall n,
  be_decode (be_bytes w n) = n mod 256 ^ N.of_nat w.
Proof.
  induction w as [|w IH]; intros n.
  - simpl. rewrite N.mod_1_r. reflexivity.
  - simpl be_bytes. rewrite be_decode_snoc, IH.
    rewrite Nat2N.inj_succ, N.pow_succ_r by lia.
    rewrite N.Div0.mod_mul_r. lia.
Qed.

Lemma be_decode_word n : n < 2 ^ 256 -> be_decode (word n) = n.
Proof.
  intros Hn. unfold word. rewrite be_decode_be_bytes.
  apply N.mod_small. exact Hn.
Qed.


End BatchProofs.

(** * Properties of the sponsorship ledger *)

Module GasProofs.
Import GasSponsor GasSpec.

Ltac tx_unfold :=
  unfold require, checked_add, checked_div in *;
  unfold bind, ret, gets, get, modify, revert in *.

Section Proofs.
Context `{World}.

(** [claim], branch by branch. *)
Lemma claim_unfold msg_sender block_timestamp amount users s :
  claim msg_sender block_timestamp amount users s =
  let r := capped s amount in
  let today := day block_timestamp in
  let n := N.of_nat (length users) in
  if read_flag (whitelistedRelayers s) msg_sender then
  if negb (paused s) then
  let s1 := roll_relayer today msg_sender s in
  let used := read (relayerDailyClaimed s1) msg_sender in
  if used + r <=? MAX_UINT256 then
  if used + r <=? dailyLimitPerRelayer s1 then
  if n =? 0 then Reverted (Panic DIVISION_BY_ZERO) s1 else
  match for_each (claim_check_user today (r / n)) users s1 with
  | Success _ s2 =>
    let s3 := roll_global today s2 in
    if globalDailyClaimed s3 + r <=? MAX_UINT256 then
    if globalDailyClaimed s3 + r <=? globalDailyLimit s3 then
    if r <=? balance s3 then
    if read (relayerDailyClaimed s3) msg_sender + r <=? MAX_UINT256 then
    let s4 := set_relayerDailyClaimed msg_sender
                (read (relayerDailyClaimed s3) msg_sender + r) s3 in
    match for_each (claim_charge_user (r / n)) users s4 with
    | Success _ s5 =>
      if globalDailyClaimed s5 + r <=? MAX_UINT256 then
      let s6 := set_globalDailyClaimed (globalDailyClaimed s5 + r) s5 in
      if totalClaimed s6 + r <=? MAX_UINT256 then
      let s7 := set_totalClaimed (totalClaimed s6 + r) s6 in
      if totalClaimCount s7 + 1 <=? MAX_UINT256 then
      let s8 := set_totalClaimCount (totalClaimCount s7 + 1) s7 in
      if transfer_call s8 msg_sender r
      then Success tt (emit (Claimed msg_sender r users n) (pay msg_sender r s8))
      else Reverted (RequireFailed "GasSponsor: transfer failed") s8
      else Reverted (Panic ARITHMETIC_OVERFLOW) s7
      else Reverted (Panic ARITHMETIC_OVERFLOW) s6
      else Reverted (Panic ARITHMETIC_OVERFLOW) s5
    | Reverted e d => Reverted e d
    end
    else Reverted (Panic ARITHMETIC_OVERFLOW) s3
    else Reverted (RequireFailed "GasSponsor: insufficient pool funds") s3
    else Reverted (RequireFailed "GasSponsor: global daily limit reached") s3
    else Reverted (Panic ARITHMETIC_OVERFLOW) s3
  | Reverted e d => Reverted e d
  end
  else Reverted (RequireFailed "GasSponsor: relayer daily limit reached") s1
  else Reverted (Panic ARITHMETIC_OVERFLOW) s1
  else Reverted (RequireFailed "GasSponsor: paused") s
  else Reverted (RequireFailed "GasSponsor: not whitelisted") s.
Proof.
  unfold claim. tx_unfold. cbv zeta.
  destruct (read_flag (whitelistedRelayers s) msg_sender); [|reflexivity].
  destruct (paused s); [reflexivity|]. cbn [negb].
  fold (day block_timestamp). fold (capped s amount).
  set (r := capped s amount). set (today := day block_timestamp).
  unfold roll_relayer.
  destruct (read (relayerLastClaimDay s) msg_sender <? today);
    match goal with |- context [read (relayerDailyClaimed ?s1) _ + _ <=? MAX_UINT256] =>
      set (st1 := s1) end.
  all: destruct (read (relayerDailyClaimed st1) msg_sender + r <=? MAX_UINT256);
    [|reflexivity].
  all: destruct (read (relayerDailyClaimed st1) msg_sender + r <=? dailyLimitPerRelayer st1);
    [|reflexivity].
  all: destruct (N.of_nat (length users) =? 0); [reflexivity|].
  all: destruct (for_each _ users st1) as [[] s2|e d]; [|reflexivity].
  all: unfold roll_global.
  all: destruct (globalLastClaimDay s2 <? today);
    match goal with |- context [globalDailyClaimed ?s3 + _ <=? MAX_UINT256] =>
      set (st3 := s3) end.
  all: destruct (globalDailyClaimed st3 + r <=? MAX_UINT256); [|reflexivity].
  all: destruct (globalDailyClaimed st3 + r <=? globalDailyLimit st3); [|reflexivity].
  all: destruct (r <=? balance st3); [|reflexivity].
  all: destruct (read (relayerDailyClaimed st3) msg_sender + r <=? MAX_UINT256);
    [|reflexivity].
  all: destruct (for_each _ users _) as [[] s5|e d]; [|reflexivity].
  all: destruct (globalDailyClaimed s5 + r <=? MAX_UINT256); [|reflexivity].
  all: match goal with |- context [totalClaimed ?s6 + ?x <=? MAX_UINT256] =>
      destruct (totalClaimed s6 + x <=? MAX_UINT256); [|reflexivity] end.
  all: match goal with |- context [totalClaimCount ?s7 + 1 <=? MAX_UINT256] =>
      destruct (totalClaimCount s7 + 1 <=? MAX_UINT256); [|reflexivity] end.
  all: match goal with |- context [transfer_call ?s8 ?a ?x] =>
      destruct (transfer_call s8 a x); reflexivity end.
Qed.

(** *** Day rollover of one beneficiary *)

Lemma read_insert (m : gmap address uint256) a b v :
  read (<[a := v]> m) b = if decide (a = b) then v else read m b.
Proof. unfold read. rewrite lookup_insert. destruct (decide (a = b)); reflexivity. Qed.

Lemma roll_user_frame today u s :
  without_users (roll_user today u s) = without_users s.
Proof. unfold roll_user. destruct (_ <? _); reflexivity. Qed.

Lemma roll_user_used today u s v :
  user_used (roll_user today u s) today v = user_used s today v.
Proof.
  unfold roll_user, user_used.
  destruct (read (userLastSponsorDay s) u <? today) eqn:Hstale; [|reflexivity].
  simpl. rewrite !read_insert.
  destruct (decide (u = v)) as [->|Hne]; [|reflexivity].
  rewrite Hstale, N.ltb_irrefl. reflexivity.
Qed.

Lemma roll_user_stored today u s :
  read (userDailySponsored (roll_user today u s)) u = user_used s today u.
Proof.
  unfold roll_user, user_used.
  destruct (read (userLastSponsorDay s) u <? today); [|reflexivity].
  simpl. rewrite read_insert. destruct (decide (u = u)); congruence.
Qed.

Lemma roll_user_stored_other today u s v :
  u <> v ->
  read (userDailySponsored (roll_user today u s)) v = read (userDailySponsored s) v.
Proof.
  intros Hne. unfold roll_user.
  destruct (read (userLastSponsorDay s) u <? today); [|reflexivity].
  simpl. rewrite read_insert. destruct (decide (u = v)); congruence.
Qed.

Lemma roll_users_frame today users : forall s,
  without_users (roll_users today users s) = without_users s.
Proof.
  induction users as [|u users IH]; intros s; simpl; [reflexivity|].
  unfold roll_users in *. simpl. rewrite IH. apply roll_user_frame.
Qed.

(** After the rollover a beneficiary named in the claim has, as its
    stored amount, what is counted against it today; the others keep
    what they had. *)
Lemma roll_users_stored today users : forall s v,
  read (userDailySponsored (roll_users today users s)) v =
  if in_dec N.eq_dec v users then user_used s today v
  else read (userDailySponsored s) v.
Proof.
  induction users as [|u users IH]; intros s v; [reflexivity|].
  unfold roll_users in *. simpl fold_left. rewrite IH.
  destruct (in_dec N.eq_dec v users) as [Hin|Hout].
  - rewrite roll_user_used.
    destruct (in_dec N.eq_dec v (u :: users)) as [_|Hno]; [reflexivity|].
    exfalso. apply Hno. right. exact Hin.
  - destruct (N.eq_dec u v) as [->|Hne].
    + rewrite roll_user_stored.
      destruct (in_dec N.eq_dec v (v :: users)) as [_|Hno]; [reflexivity|].
      exfalso. apply Hno. left. reflexivity.
    + rewrite roll_user_stored_other by exact Hne.
      destruct (in_dec N.eq_dec v (u :: users)) as [[Heq|Hin]|_];
        [contradiction|contradiction|reflexivity].
Qed.

(** *** The two loops of [claim] *)

Lemma forallb_pointwise {A} (f g : A -> bool) l :
  (forall x, f x = g x) -> forallb f l = forallb g l.
Proof.
  intros Hfg. induction l as [|x l IH]; simpl; [reflexivity|].
  rewrite Hfg, IH. reflexivity.
Qed.

Lemma claim_check_user_unfold today per u s :
  claim_check_user today per u s =
  let s1 := roll_user today u s in
  let used := user_used s today u in
  if used + per <=? MAX_UINT256 then
    if used + per <=? dailyLimitPerUser s then Success tt s1
    else Reverted (RequireFailed "GasSponsor: user daily limit reached") s1
  else Reverted (Panic ARITHMETIC_OVERFLOW) s1.
Proof.
  cbv zeta. rewrite <- (roll_user_stored today u s).
  change (dailyLimitPerUser s) with (dailyLimitPerUser (without_users s)).
  rewrite <- (roll_user_frame today u s).
  unfold claim_check_user, roll_user. tx_unfold.
  destruct (read (userLastSponsorDay s) u <? today); cbv beta iota.
  all: match goal with |- context [read (userDailySponsored ?s1) ?a + ?p <=? MAX_UINT256] =>
         destruct (read (userDailySponsored s1) a + p <=? MAX_UINT256);
         [|reflexivity] end.
  all: simpl; match goal with |- context [if ?c then _ else _] =>
         destruct c; reflexivity end.
Qed.

Lemma check_loop_inv today per users : forall s s',
  for_each (claim_check_user today per) users s = Success tt s' ->
  s' = roll_users today users s
  /\ forallb (fun u => user_used s today u + per <=? dailyLimitPerUser s) users = true.
Proof.
  induction users as [|u users IH]; intros s s' Hrun.
  - simpl in Hrun. injection Hrun as <-. split; reflexivity.
  - simpl in Hrun. unfold bind in Hrun.
    rewrite claim_check_user_unfold in Hrun. cbv zeta in Hrun.
    destruct (user_used s today u + per <=? MAX_UINT256); [|discriminate].
    destruct (user_used s today u + per <=? dailyLimitPerUser s) eqn:Hfit;
      [|discriminate].
    apply IH in Hrun as [-> Hrest]. split; [reflexivity|].
    simpl. rewrite Hfit. simpl.
    rewrite <- Hrest. apply forallb_pointwise. intros v.
    rewrite roll_user_used.
    change (dailyLimitPerUser (roll_user today u s))
      with (dailyLimitPerUser (without_users (roll_user today u s))).
    rewrite roll_user_frame. reflexivity.
Qed.


Lemma charge_users_frame per users : forall s,
  without_users (charge_users per users s) = without_users s.
Proof.
  induction users as [|u users IH]; intros s; [reflexivity|].
  unfold charge_users in *. simpl. rewrite IH. reflexivity.
Qed.

Lemma charge_users_stored per users : forall s v,
  read (userDailySponsored (charge_users per users s)) v
  = read (userDailySponsored s) v + per * occurrences v users.
Proof.
  induction users as [|u users IH]; intros s v.
  - simpl. lia.
  - unfold charge_users in *. simpl fold_left. rewrite IH.
    unfold charge_user at 1. simpl. rewrite read_insert.
    destruct (decide (u = v)) as [->|Hne].
    + rewrite N.eqb_refl. lia.
    + apply N.eqb_neq in Hne. rewrite Hne. lia.
Qed.

Lemma charge_loop_inv per users : forall s s',
  for_each (claim_charge_user per) users s = Success tt s' ->
  s' = charge_users per users s.
Proof.
  induction users as [|u users IH]; intros s s' Hrun.
  - simpl in Hrun. injection Hrun as <-. reflexivity.
  - simpl in Hrun. unfold claim_charge_user in Hrun. tx_unfold.
    destruct (read (userDailySponsored s) u + per <=? MAX_UINT256); [|discriminate].
    apply IH in Hrun. exact Hrun.
Qed.


(** *** What the loops and the rollovers leave alone *)

Lemma users_frame {A} (f : State -> A) today users s :
  (forall st, f st = f (without_users st)) ->
  f (roll_users today users s) = f s.
Proof. intros Hf. rewrite Hf, roll_users_frame, <- Hf. reflexivity. Qed.

Lemma charge_frame {A} (f : State -> A) per users s :
  (forall st, f st = f (without_users st)) ->
  f (charge_users per users s) = f s.
Proof. intros Hf. rewrite Hf, charge_users_frame, <- Hf. reflexivity. Qed.

Lemma roll_relayer_stored today a s :
  read (relayerDailyClaimed (roll_relayer today a s)) a = relayer_used s today a.
Proof.
  unfold roll_relayer, relayer_used.
  destruct (read (relayerLastClaimDay s) a <? today); [|reflexivity].
  simpl. rewrite read_insert. destruct (decide (a = a)); congruence.
Qed.

Lemma roll_relayer_user_used today a s v :
  user_used (roll_relayer today a s) today v = user_used s today v.
Proof. unfold roll_relayer. destruct (_ <? _); reflexivity. Qed.

Lemma roll_global_stored today s :
  globalDailyClaimed (roll_global today s) = global_used s today.
Proof. unfold roll_global, global_used. destruct (_ <? _); reflexivity. Qed.

Ltac frame :=
  repeat first
    [ rewrite (users_frame _ _ _ _ (fun _ => eq_refl))
    | rewrite (charge_frame _ _ _ _ (fun _ => eq_refl))
    | progress unfold roll_global
    | progress unfold roll_relayer
    | match goal with |- context [if ?c then _ else _] => destruct c end
    | reflexivity ].

(** The storage on which step 4 runs, seen from the storage before the
    call. *)
Lemma before_global today msg_sender users s :
  let s2 := roll_users today users (roll_relayer today msg_sender s) in
  global_used s2 today = global_used s today
  /\ globalDailyLimit (roll_global today s2) = globalDailyLimit s
  /\ balance (roll_global today s2) = balance s
  /\ read (relayerDailyClaimed (roll_global today s2)) msg_sender
     = relayer_used s today msg_sender
  /\ totalClaimed (roll_global today s2) = totalClaimed s
  /\ totalClaimCount (roll_global today s2) = totalClaimCount s
  /\ payments (roll_global today s2) = payments s
  /\ events (roll_global today s2) = events s.
Proof.
  cbv zeta. unfold global_used.
  rewrite !(users_frame globalLastClaimDay), !(users_frame globalDailyClaimed)
    by reflexivity.
  assert (Hlast : globalLastClaimDay (roll_relayer today msg_sender s)
                  = globalLastClaimDay s) by frame.
  assert (Hday : globalDailyClaimed (roll_relayer today msg_sender s)
                 = globalDailyClaimed s) by frame.
  rewrite Hlast, Hday. split; [reflexivity|].
  assert (Hrel : forall st, read (relayerDailyClaimed (roll_global today st)) msg_sender
                            = read (relayerDailyClaimed st) msg_sender)
    by (intros st; frame).
  rewrite Hrel, (users_frame (fun st => read (relayerDailyClaimed st) msg_sender))
    by reflexivity.
  rewrite roll_relayer_stored.
  repeat split; try reflexivity.
  - transitivity (globalDailyLimit (roll_users today users (roll_relayer today msg_sender s)));
      [frame|]. rewrite (users_frame globalDailyLimit) by reflexivity. frame.
  - transitivity (balance (roll_users today users (roll_relayer today msg_sender s)));
      [frame|]. rewrite (users_frame balance) by reflexivity. frame.
  - transitivity (totalClaimed (roll_users today users (roll_relayer today msg_sender s)));
      [frame|]. rewrite (users_frame totalClaimed) by reflexivity. frame.
  - transitivity (totalClaimCount (roll_users today users (roll_relayer today msg_sender s)));
      [frame|]. rewrite (users_frame totalClaimCount) by reflexivity. frame.
  - transitivity (payments (roll_users today users (roll_relayer today msg_sender s)));
      [frame|]. rewrite (users_frame payments) by reflexivity. frame.
  - transitivity (events (roll_users today users (roll_relayer today msg_sender s)));
      [frame|]. rewrite (users_frame events) by reflexivity. frame.
Qed.

(** *** A claim that goes through *)

Lemma claim_success_inv msg_sender block_timestamp amount users s s' :
  claim msg_sender block_timestamp amount users s = Success tt s' ->
  let r := capped s amount in
  let today := day block_timestamp in
  let n := N.of_nat (length users) in
  read_flag (whitelistedRelayers s) msg_sender = true
  /\ paused s = false
  /\ checks_pass s msg_sender block_timestamp amount users = true
  /\ transfer_call (tracked s msg_sender today r (r / n) users) msg_sender r = true
  /\ s' = settled s msg_sender block_timestamp amount users.
Proof.
  intros Hrun. rewrite claim_unfold in Hrun. cbv zeta in *.
  set (r := capped s amount) in *. set (today := day block_timestamp) in *.
  set (n := N.of_nat (length users)) in *.
  destruct (read_flag (whitelistedRelayers s) msg_sender); [|discriminate].
  destruct (paused s); [discriminate|]. cbn [negb] in Hrun.
  rewrite roll_relayer_stored in Hrun.
  destruct (relayer_used s today msg_sender + r <=? MAX_UINT256); [|discriminate].
  assert (Hlim : dailyLimitPerRelayer (roll_relayer today msg_sender s)
                 = dailyLimitPerRelayer s)
    by (unfold roll_relayer; destruct (_ <? _); reflexivity).
  rewrite Hlim in Hrun.
  destruct (relayer_used s today msg_sender + r <=? dailyLimitPerRelayer s) eqn:Hrelayer;
    [|discriminate].
  destruct (n =? 0) eqn:Hn; [discriminate|].
  destruct (for_each (claim_check_user today (r / n)) users _) as [[] s2|e d] eqn:Hcheck;
    [|discriminate].
  apply check_loop_inv in Hcheck as [-> Husers].
  destruct (before_global today msg_sender users s)
    as (Hgused & Hglimit & Hbalance & Hrel & _).
  rewrite roll_global_stored, Hgused, Hglimit, Hbalance, Hrel in Hrun.
  destruct (global_used s today + r <=? MAX_UINT256); [|discriminate].
  destruct (global_used s today + r <=? globalDailyLimit s) eqn:Hglobal; [|discriminate].
  destruct (r <=? balance s) eqn:Hpool; [|discriminate].
  destruct (relayer_used s today msg_sender + r <=? MAX_UINT256); [|discriminate].
  destruct (for_each (claim_charge_user (r / n)) users _) as [[] s5|e d] eqn:Hcharge;
    [|discriminate].
  apply charge_loop_inv in Hcharge. subst s5.
  match type of Hrun with (if ?c then _ else _) = _ =>
    destruct c; [|discriminate] end.
  match type of Hrun with (if ?c then _ else _) = _ =>
    destruct c; [|discriminate] end.
  match type of Hrun with (if ?c then _ else _) = _ =>
    destruct c; [|discriminate] end.
  match type of Hrun with (if ?c then _ else _) = _ =>
    destruct c eqn:Hsent; [|discriminate] end.
  injection Hrun as <-.
  assert (Husers' : forallb (fun u => user_used s today u + r / n
                                      <=? dailyLimitPerUser s) users = true).
  { rewrite <- Husers. apply forallb_pointwise. intros u.
    rewrite roll_relayer_user_used.
    replace (dailyLimitPerUser (roll_relayer today msg_sender s))
      with (dailyLimitPerUser s)
      by (unfold roll_relayer; destruct (_ <? _); reflexivity).
    reflexivity. }
  repeat split.
  - unfold checks_pass. fold r today n.
    rewrite Hn, Hrelayer, Husers', Hglobal, Hpool. reflexivity.
  - unfold tracked. rewrite Hrel. exact Hsent.
  - unfold settled, tracked. fold r today n. rewrite Hrel. reflexivity.
Qed.

Lemma capped_le s amount : capped s amount <= maxPerClaim s.
Proof. unfold capped. destruct (maxPerClaim s <? amount) eqn:E; [lia|]. apply N.ltb_ge in E. lia. Qed.









(** *** The fields of the storage after a claim *)

Lemma settled_fields msg_sender block_timestamp amount users s :
  let r := capped s amount in
  let today := day block_timestamp in
  let n := N.of_nat (length users) in
  let s' := settled s msg_sender block_timestamp amount users in
  payments s' = payments s ++ [(msg_sender, r)]
  /\ balance s' = balance s - r
  /\ events s' = events s ++ [Claimed msg_sender r users n]
  /\ read (relayerDailyClaimed s') msg_sender = relayer_used s today msg_sender + r
  /\ globalDailyClaimed s' = global_used s today + r
  /\ totalClaimed s' = totalClaimed s + r
  /\ totalClaimCount s' = totalClaimCount s + 1
  /\ (forall u, In u users ->
        read (userDailySponsored s') u
        = user_used s today u + r / n * occurrences u users).
Proof.
  cbv zeta. unfold settled, tracked. cbv zeta.
  set (r := capped s amount). set (today := day block_timestamp).
  set (n := N.of_nat (length users)).
  destruct (before_global today msg_sender users s)
    as (Hgused & _ & Hbalance & Hrel & Htc & Hcc & Hpay & Hev).
  remember (roll_global today (roll_users today users (roll_relayer today msg_sender s)))
    as s3 eqn:Hs3.
  assert (Hg3 : globalDailyClaimed s3 = global_used s today)
    by (subst s3; rewrite roll_global_stored; exact Hgused).
  assert (Hbase : forall v, In v users ->
            read (userDailySponsored s3) v = user_used s today v).
  { intros v Hin. subst s3.
    replace (userDailySponsored (roll_global today
               (roll_users today users (roll_relayer today msg_sender s))))
      with (userDailySponsored (roll_users today users (roll_relayer today msg_sender s)))
      by (unfold roll_global; destruct (_ <? _); reflexivity).
    rewrite roll_users_stored.
    destruct (in_dec N.eq_dec v users); [|contradiction].
    apply roll_relayer_user_used. }
  clear Hs3.
  remember (set_relayerDailyClaimed msg_sender
              (read (relayerDailyClaimed s3) msg_sender + r) s3) as s4 eqn:Hs4.
  remember (charge_users (r / n) users s4) as s5 eqn:Hs5.
  assert (H5 : without_users s5 = without_users s4)
    by (subst s5; apply charge_users_frame).
  assert (H5u : forall u, read (userDailySponsored s5) u
            = read (userDailySponsored s3) u + r / n * occurrences u users).
  { intros u. subst s5. rewrite charge_users_stored. subst s4. reflexivity. }
  clear Hs5.
  repeat split.
  - simpl. change (payments s5) with (payments (without_users s5)).
    rewrite H5. subst s4. simpl. rewrite Hpay. reflexivity.
  - simpl. change (balance s5) with (balance (without_users s5)).
    rewrite H5. subst s4. simpl. rewrite Hbalance. reflexivity.
  - simpl. change (events s5) with (events (without_users s5)).
    rewrite H5. subst s4. simpl. rewrite Hev. reflexivity.
  - simpl. change (relayerDailyClaimed s5) with (relayerDailyClaimed (without_users s5)).
    rewrite H5. subst s4. simpl. rewrite read_insert.
    destruct (decide (msg_sender = msg_sender)); [|congruence].
    rewrite Hrel. reflexivity.
  - simpl. change (globalDailyClaimed s5) with (globalDailyClaimed (without_users s5)).
    rewrite H5. subst s4. simpl. rewrite Hg3. reflexivity.
  - simpl. change (totalClaimed s5) with (totalClaimed (without_users s5)).
    rewrite H5. subst s4. simpl. rewrite Htc. reflexivity.
  - simpl. change (totalClaimCount s5) with (totalClaimCount (without_users s5)).
    rewrite H5. subst s4. simpl. rewrite Hcc. reflexivity.
  - intros u Hin. simpl. rewrite H5u, (Hbase u Hin). reflexivity.
Qed.

(** *** Counting the beneficiaries *)

Lemma occurrences_absent u users : ~ In u users -> occurrences u users = 0.
Proof.
  induction users as [|v users IH]; intros Hout; [reflexivity|].
  simpl in *. destruct (N.eqb_spec v u) as [->|Hne]; [tauto|].
  rewrite IH by tauto. reflexivity.
Qed.








(** *** The estimator *)


Lemma estimate_users_readonly today per users : forall s,
  (exists b, estimate_users today per users s = Success b s)
  \/ (exists e, estimate_users today per users s = Reverted e s).
Proof.
  induction users as [|u users IH]; intros s; [left; eexists; reflexivity|].
  simpl. tx_unfold.
  match goal with |- context [if ?c then _ else _] => destruct c end;
    [|right; eauto].
  match goal with |- context [if ?c then _ else _] => destruct c end;
    [left; eauto|apply IH].
Qed.

Lemma estimateReimbursement_unfold block_timestamp amount relayer users s :
  estimateReimbursement block_timestamp amount relayer users s =
  let r := capped s amount in
  let today := day block_timestamp in
  let n := N.of_nat (length users) in
  if balance s <? r then Success (0, false) s else
  if relayer_used s today relayer + r <=? MAX_UINT256 then
    if dailyLimitPerRelayer s <? relayer_used s today relayer + r
    then Success (0, false) s else
    if global_used s today + r <=? MAX_UINT256 then
      if globalDailyLimit s <? global_used s today + r
      then Success (0, false) s else
      if n =? 0 then Reverted (Panic DIVISION_BY_ZERO) s else
      match estimate_users today (r / n) users s with
      | Success fits s' => Success (if fits then (r, true) else (0, false)) s'
      | Reverted e d => Reverted e d
      end
    else Reverted (Panic ARITHMETIC_OVERFLOW) s
  else Reverted (Panic ARITHMETIC_OVERFLOW) s.
Proof.
  unfold estimateReimbursement. tx_unfold. cbv beta iota zeta.
  change (block_timestamp / ONE_DAY) with (day block_timestamp).
  change (if maxPerClaim s <? amount then maxPerClaim s else amount)
    with (capped s amount).
  destruct (balance s <? capped s amount); [reflexivity|]. cbv beta iota.
  change (if read (relayerLastClaimDay s) relayer <? day block_timestamp
          then 0 else read (relayerDailyClaimed s) relayer)
    with (relayer_used s (day block_timestamp) relayer).
  destruct (relayer_used s _ relayer + _ <=? MAX_UINT256); [|reflexivity].
  cbv beta iota.
  destruct (dailyLimitPerRelayer s <? _); [reflexivity|]. cbv beta iota.
  change (if globalLastClaimDay s <? day block_timestamp
          then 0 else globalDailyClaimed s)
    with (global_used s (day block_timestamp)).
  destruct (global_used s _ + _ <=? MAX_UINT256); [|reflexivity].
  cbv beta iota.
  destruct (globalDailyLimit s <? _); [reflexivity|]. cbv beta iota.
  destruct (N.of_nat (length users) =? 0); [reflexivity|]. cbv beta iota.
  destruct (estimate_users _ _ users s) as [[|] s'|e d]; reflexivity.
Qed.

(** The estimator never writes: whatever it answers, and also when it
    reverts, the storage it ends on is the storage it started from. *)
Lemma estimateReimbursement_readonly block_timestamp amount relayer users s :
  (exists v, estimateReimbursement block_timestamp amount relayer users s = Success v s)
  \/ (exists e, estimateReimbursement block_timestamp amount relayer users s
                = Reverted e s).
Proof.
  rewrite estimateReimbursement_unfold. cbv zeta.
  repeat match goal with |- context [if ?c then _ else _] =>
    destruct c; try (left; eexists; reflexivity); try (right; eexists; reflexivity) end.
  destruct (estimate_users_readonly (day block_timestamp)
              (capped s amount / N.of_nat (length users)) users s)
    as [[b ->]|[e ->]]; [left|right]; eauto.
Qed.


Lemma claim_outcome msg_sender block_timestamp amount users s :
  (exists s', claim msg_sender block_timestamp amount users s = Success tt s')
  \/ (exists e d, claim msg_sender block_timestamp amount users s = Reverted e d).
Proof.
  destruct (claim msg_sender block_timestamp amount users s) as [[] s'|e d];
    [left|right]; eauto.
Qed.

(** *** The properties *)

(** C2, as the contract has it: a claim that names no beneficiary is
    always rejected and changes nothing, but no check of its own rejects
    it. The checks that precede the division reject it with their own
    error; when they pass, it is the division [reimbursement /
    users.length] that is evaluated and panics. *)
Theorem claim_without_beneficiaries_is_rejected
    msg_sender block_timestamp amount s :
  commit (claim msg_sender block_timestamp amount []) s =
  (s, inl
    (let r := capped s amount in
     let used := relayer_used s (day block_timestamp) msg_sender in
     if negb (read_flag (whitelistedRelayers s) msg_sender)
     then RequireFailed "GasSponsor: not whitelisted"
     else if paused s then RequireFailed "GasSponsor: paused"
     else if MAX_UINT256 <? used + r then Panic ARITHMETIC_OVERFLOW
     else if dailyLimitPerRelayer s <? used + r
     then RequireFailed "GasSponsor: relayer daily limit reached"
     else Panic DIVISION_BY_ZERO)).
Proof.
  unfold commit. rewrite claim_unfold. cbv zeta.
  destruct (read_flag (whitelistedRelayers s) msg_sender); [|reflexivity].
  destruct (paused s); [reflexivity|]. cbn [negb].
  rewrite roll_relayer_stored.
  replace (dailyLimitPerRelayer (roll_relayer (day block_timestamp) msg_sender s))
    with (dailyLimitPerRelayer s)
    by (unfold roll_relayer; destruct (_ <? _); reflexivity).
  rewrite !N.ltb_antisym.
  destruct (_ + _ <=? MAX_UINT256); [|reflexivity].
  destruct (_ + _ <=? dailyLimitPerRelayer s); reflexivity.
Qed.

(** C4: when one of the conditions of a claim does not hold (the caller
    is not whitelisted, the contract is paused, the relayer, one of the
    beneficiaries or the whole pool would exceed its daily cap, the
    pool is short, or the transfer to the caller fails), the claim
    reverts and the committed storage is the storage before the call:
    counters, day stamps, totals, balance and payments are untouched,
    the resets written by the checks included. *)
Theorem claim_aborts_as_a_whole msg_sender block_timestamp amount users s :
  let r := capped s amount in
  let today := day block_timestamp in
  let n := N.of_nat (length users) in
  read_flag (whitelistedRelayers s) msg_sender = false
  \/ paused s = true
  \/ dailyLimitPerRelayer s < relayer_used s today msg_sender + r
  \/ (exists u, In u users /\ dailyLimitPerUser s < user_used s today u + r / n)
  \/ globalDailyLimit s < global_used s today + r
  \/ balance s < r
  \/ transfer_call (tracked s msg_sender today r (r / n) users) msg_sender r = false ->
  exists e,
    commit (claim msg_sender block_timestamp amount users) s = (s, inl e).
Proof.
  intros r today n Hfails. unfold commit.
  destruct (claim_outcome msg_sender block_timestamp amount users s)
    as [[s' Hrun]|(e & d & Hrun)]; rewrite Hrun; [|eauto].
  exfalso.
  apply claim_success_inv in Hrun as (Hlisted & Hpaused & Hchecks & Hsent & _).
  cbv zeta in Hsent. fold r today n in Hsent.
  unfold checks_pass in Hchecks. fold r today n in Hchecks.
  apply andb_true_iff in Hchecks as [Hchecks Hpool].
  apply andb_true_iff in Hchecks as [Hchecks Hglobal].
  apply andb_true_iff in Hchecks as [Hchecks Husers].
  apply andb_true_iff in Hchecks as [_ Hrelayer].
  apply N.leb_le in Hpool, Hglobal, Hrelayer.
  destruct Hfails as [Hf|[Hf|[Hf|[(u & Hin & Hf)|[Hf|[Hf|Hf]]]]]];
    try congruence; try lia.
  rewrite forallb_forall in Husers. specialize (Husers u Hin).
  apply N.leb_le in Husers. lia.
Qed.




(** C10: [deposit] refuses a call that carries no value, while a plain
    transfer, which runs [receive], is accepted for every value, zero
    included, as long as the total deposited stays a uint256: it
    credits the balance, adds the value to [totalDeposited] and emits
    [Deposited]. With a positive value the two do the same. *)
Theorem plain_transfer_bypasses_the_zero_check msg_sender msg_value s :
  totalDeposited s + msg_value <= MAX_UINT256 ->
  commit (deposit msg_sender 0) s
  = (s, inl (RequireFailed "GasSponsor: zero deposit"))
  /\ commit (receive msg_sender 0) s
     = (emit (Deposited msg_sender 0)
          (set_totalDeposited (totalDeposited s + 0) (credit 0 s)), inr tt)
  /\ commit (receive msg_sender msg_value) s
     = (emit (Deposited msg_sender msg_value)
          (set_totalDeposited (totalDeposited s + msg_value)
             (credit msg_value s)), inr tt)
  /\ totalDeposited (fst (commit (receive msg_sender msg_value) s))
     = totalDeposited s + msg_value
  /\ balance (fst (commit (receive msg_sender msg_value) s))
     = balance s + msg_value
  /\ events (fst (commit (receive msg_sender msg_value) s))
     = events s ++ [Deposited msg_sender msg_value]
  /\ (0 < msg_value ->
       commit (deposit msg_sender msg_value) s
       = commit (receive msg_sender msg_value) s).
Proof.
  intros Hroom.
  assert (Hv : (totalDeposited s + msg_value <=? MAX_UINT256) = true)
    by (apply N.leb_le; exact Hroom).
  assert (H0 : (totalDeposited s + 0 <=? MAX_UINT256) = true)
    by (apply N.leb_le; lia).
  assert (Hreceive : commit (receive msg_sender msg_value) s
     = (emit (Deposited msg_sender msg_value)
          (set_totalDeposited (totalDeposited s + msg_value)
             (credit msg_value s)), inr tt)).
  { unfold commit, receive. tx_unfold. cbn [totalDeposited credit].
    rewrite Hv. reflexivity. }
  split; [reflexivity|].
  split.
  { unfold commit, receive. tx_unfold. cbn [totalDeposited credit].
    rewrite H0. reflexivity. }
  split; [exact Hreceive|].
  rewrite Hreceive.
  split; [reflexivity|]. split; [reflexivity|]. split; [reflexivity|].
  intros Hpos. unfold commit, deposit. tx_unfold.
  apply N.ltb_lt in Hpos. rewrite Hpos. cbn [totalDeposited credit].
  rewrite Hv. reflexivity.
Qed.

End Proofs.

(** *** The properties at work *)

Import PoolScenario.

(** Scenario C, in small numbers: the cap is 5, the claim asks for 9. *)
Example scenario_C :
  commit (claim relayer 0 9 [alice; bob]) pool
  = (settled pool relayer 0 9 [alice; bob], inr tt)
  /\ payments (settled pool relayer 0 9 [alice; bob]) = [(relayer, 5)]
  /\ read (relayerDailyClaimed (settled pool relayer 0 9 [alice; bob])) relayer = 5
  /\ balance (settled pool relayer 0 9 [alice; bob]) = 95.
Proof. vm_compute. repeat split; reflexivity. Qed.

(** On day 3 the claim fails at the global cap. By then the checks have
    reset the relayer's counter and stamped the day; the storage at the
    point of failure shows it, the committed storage does not. *)
Example resets_are_rolled_back :
  exists dirty,
    claim relayer day3 5 [alice; bob] stale_pool
    = Reverted (RequireFailed "GasSponsor: global daily limit reached") dirty
    /\ read (relayerDailyClaimed dirty) relayer = 0
    /\ read (relayerLastClaimDay dirty) relayer = 3
    /\ read (userDailySponsored dirty) alice = 0
    /\ read (userLastSponsorDay dirty) bob = 3
    /\ read (relayerDailyClaimed stale_pool) relayer = 4
    /\ commit (claim relayer day3 5 [alice; bob]) stale_pool
       = (stale_pool, inl (RequireFailed "GasSponsor: global daily limit reached")).
Proof. eexists. vm_compute. repeat split; reflexivity. Qed.

(** The estimator cannot see the transfer: for a whitelisted contract
    that refuses value it answers yes, and the claim reverts. *)
Example estimate_cannot_see_the_transfer :
  estimateReimbursement 0 9 vault [alice] pool = Success (5, true) pool
  /\ commit (claim vault 0 9 [alice]) pool
     = (pool, inl (RequireFailed "GasSponsor: transfer failed")).
Proof. vm_compute. split; reflexivity. Qed.

(** Scenario E: the pool holds 3, the reimbursement is 5. *)
Example scenario_E :
  commit (claim relayer 0 9 [alice]) short_pool
  = (short_pool, inl (RequireFailed "GasSponsor: insufficient pool funds"))
  /\ estimateReimbursement 0 9 relayer [alice] short_pool
     = Success (0, false) short_pool.
Proof. vm_compute. split; reflexivity. Qed.

(** Scenario F: two relayers claim 5 each on a day with a global cap of 8.
    The first claim goes through; the second is rejected and leaves the
    global counter where the first put it. *)
Example scenario_F :
  commit (claim relayer day3 5 [alice]) tight_pool
  = (settled tight_pool relayer day3 5 [alice], inr tt)
  /\ globalDailyClaimed (settled tight_pool relayer day3 5 [alice]) = 5
  /\ commit (claim carol day3 5 [bob]) (settled tight_pool relayer day3 5 [alice])
     = (settled tight_pool relayer day3 5 [alice],
        inl (RequireFailed "GasSponsor: global daily limit reached")).
Proof. vm_compute. repeat split; reflexivity. Qed.

(** Where a counter leaves no room below the largest uint256 the checked
    addition of the estimator reverts, as the one of [claim] does. *)
Example estimate_reverts_without_headroom :
  estimateReimbursement day3 1 relayer [alice] brimful_pool
  = Reverted (Panic ARITHMETIC_OVERFLOW) brimful_pool
  /\ commit (claim relayer day3 1 [alice]) brimful_pool
     = (brimful_pool, inl (Panic ARITHMETIC_OVERFLOW)).
Proof. vm_compute. split; reflexivity. Qed.

(** Scenario D: no explicit check rejects the empty list; the claim gets
    to the division and it is the division that fails. *)
Lemma claim_without_beneficiaries_reaches_the_division :
  commit (claim relayer 0 3 []) pool = (pool, inl (Panic DIVISION_BY_ZERO))
  /\ ~ (exists reason,
          commit (claim relayer 0 3 []) pool = (pool, inl (RequireFailed reason))).
Proof.
  split; [vm_compute; reflexivity|].
  intros [reason Hreason]. vm_compute in Hreason. discriminate.
Qed.




Lemma claim_aborts_as_a_whole_witness :
  exists e, commit (claim relayer day3 5 [alice; bob]) stale_pool = (stale_pool, inl e).
Proof.
  apply (claim_aborts_as_a_whole relayer day3 5 [alice; bob] stale_pool).
  do 4 right. left. vm_compute. reflexivity.
Defined.




Lemma plain_transfer_bypasses_the_zero_check_witness :
  commit (deposit alice 0) pool = (pool, inl (RequireFailed "GasSponsor: zero deposit"))
  /\ totalDeposited (fst (commit (receive alice 0) pool)) = totalDeposited pool + 0.
Proof.
  destruct (plain_transfer_bypasses_the_zero_check alice 0 pool)
    as (Hdeposit & _ & _ & Htotal & _).
  - vm_compute. discriminate.
  - split; [exact Hdeposit | exact Htotal].
Defined.

End GasProofs.

(** * More properties of the batch coordinator *)

Module MoreBatchProofs.
Import BatchExecutor BatchSpec Runs BatchProofs.

Section Proofs.
Context `{Precompiles} `{World}.

(** *** What a batch that went through has recorded *)

Lemma sublist_item {A} (e : A) (items log inner : list A) :
  sublist items log -> sublist (e :: items) (inner ++ e :: log).
Proof. intros Hsub. apply sublist_inserts_l. apply sublist_skip. exact Hsub. Qed.

Lemma loop_summary reenter items : forall i results successCount s out s',
  sound reenter ->
  executeBatch_loop reenter i items results successCount s = Success out s' ->
  (i + length items <= length results)%nat ->
  exists outcomes log,
    length outcomes = length items
    /\ fst out = take i results ++ outcomes ++ drop (i + length items) results
    /\ snd out = successCount + count_true outcomes
    /\ events s' = events s ++ log
    /\ sublist (item_events (map fst items) outcomes) log
    /\ (quiet (map fst items) -> log = item_events (map fst items) outcomes).
Proof.
  induction items as [|[req signature] rest IH];
    intros i results sc s out s' Hsound Hrun Hroom.
  - simpl in Hrun. injection Hrun as <- <-. exists [], []. simpl.
    rewrite Nat.add_0_r, take_drop, N.add_0_r, app_nil_r.
    split; [reflexivity|]. split; [reflexivity|]. split; [reflexivity|].
    split; [reflexivity|]. split; [constructor|reflexivity].
  - rewrite loop_cons in Hrun.
    destruct (turn reenter req signature s) as [success s1|e d] eqn:Hturn;
      [|discriminate].
    destruct (turn_trace _ _ _ _ _ _ Hsound Hturn) as (_ & inner & Hlog1 & _).
    apply turn_success in Hturn as (_ & _ & _ & _ & Hs1).
    simpl length in Hroom.
    apply IH in Hrun as (outcomes & log & Hlen & Hfst & Hsnd & Hlog & Hsub & Hquiet);
      [|exact Hsound|rewrite length_insert; lia].
    exists (success :: outcomes),
      (inner ++ RequestExecuted (from req) (to req) (nonce req) success :: log).
    split; [simpl; lia|]. split; [|split; [|split; [|split]]].
    + rewrite Hfst.
      rewrite (take_S_r (<[i:=success]> results) i success)
        by (apply list_lookup_insert_eq; lia).
      rewrite take_insert_ge by lia.
      rewrite drop_insert_lt by lia.
      rewrite <- app_assoc. simpl.
      replace (i + S (length rest))%nat with (S i + length rest)%nat by lia.
      reflexivity.
    + rewrite Hsnd. simpl. destruct success; lia.
    + rewrite Hlog, Hlog1, <- !app_assoc. reflexivity.
    + simpl. apply sublist_item. exact Hsub.
    + intros Hq. simpl map in Hq. apply quiet_cons in Hq as [Hreq Hrest].
      rewrite (Hquiet Hrest).
      assert (Hnone : inner = []).
      { rewrite call_quiet in Hs1 by apply Hreq. simpl snd in Hs1.
        rewrite Hs1 in Hlog1. simpl in Hlog1.
        apply app_inv_head in Hlog1.
        change [RequestExecuted (from req) (to req) (nonce req) success]
          with ([] ++ [RequestExecuted (from req) (to req) (nonce req) success])
          in Hlog1 at 1.
        apply app_inv_tail in Hlog1. symmetry. exact Hlog1. }
      rewrite Hnone. reflexivity.
Qed.

(** The results of a batch that went through are the outcomes the log
    records: the call adds to the log one record per item, in the order of
    the items and each with the result returned for it, and ends it with
    the summary record, which counts the items that succeeded. Between the
    records of the items stand the records of what the targets had the
    coordinator execute, and nothing when no target calls back. *)
Theorem batch_log_matches_results msg_sender s requests signatures s' results :
  commit (executeBatch msg_sender requests signatures) s = (s', inr results) ->
  length results = length requests
  /\ exists log,
       events s' = events s ++ log
                   ++ [BatchExecuted msg_sender (N.of_nat (length requests))
                                     (count_true results)]
       /\ sublist (item_events requests results) log
       /\ (quiet requests -> log = item_events requests results).
Proof.
  intros Hrun.
  apply executeBatch_inv in Hrun as (Hlen & _ & out & s_n & Hloop & -> & ->).
  assert (Hitems : length (zip requests signatures) = length requests)
    by (rewrite length_zip_with; lia).
  apply loop_summary in Hloop
    as (outcomes & log & Hout & Hfst & Hsnd & Hlog & Hsub & Hquiet);
    [|apply reentry_sound|rewrite length_replicate; lia].
  rewrite Hitems in Hfst, Hout.
  simpl in Hfst.
  rewrite drop_ge in Hfst by (rewrite length_replicate; lia).
  rewrite app_nil_r in Hfst.
  assert (Hmap : map fst (zip requests signatures) = requests)
    by (apply fst_zip; lia).
  rewrite Hmap in Hsub, Hquiet. rewrite Hfst, Hsnd.
  split; [exact Hout|]. exists log.
  split; [simpl; rewrite Hlog, <- app_assoc; reflexivity|].
  split; assumption.
Qed.

(** *** When a batch goes through *)

Lemma loop_accepts_quiet reenter items : forall i results successCount s,
  quiet (map fst items) ->
  (forall j req signature, items !! j = Some (req, signature) ->
     authentic (DOMAIN_SEPARATOR s) req signature = true
     /\ nonce req = getNonce (from req) s
                    + sent_by (from req) (map fst (take j items))
     /\ nonce req < MAX_UINT256) ->
  exists out s',
    executeBatch_loop reenter i items results successCount s = Success out s'.
Proof.
  induction items as [|[req0 sig0] rest IH]; intros i results sc s Hquiet Hvalid.
  - simpl. unfold ret. eauto.
  - rewrite loop_cons.
    destruct (Hvalid 0%nat req0 sig0 eq_refl) as (Hauth & Hnonce & Hmax).
    simpl in Hnonce. rewrite N.add_0_r in Hnonce.
    simpl map in Hquiet. apply quiet_cons in Hquiet as [Hreq Hrest].
    rewrite (turn_valid reenter req0 sig0 s Hauth Hnonce Hmax). cbv zeta.
    rewrite call_quiet by apply Hreq. simpl fst. simpl snd.
    apply IH; [exact Hrest|]. intros j req signature Hj.
    destruct (Hvalid (S j) req signature Hj) as (Hauth' & Hnonce' & Hmax').
    split; [exact Hauth'|split; [|exact Hmax']].
    rewrite getNonce_emit, getNonce_set_nonce.
    simpl in Hnonce'.
    destruct (decide (from req0 = from req)) as [Heq|Hne].
    + rewrite Heq, N.eqb_refl in Hnonce'. rewrite Heq in Hnonce. lia.
    + apply N.eqb_neq in Hne. rewrite Hne in Hnonce'. lia.
Qed.

(** When no target of the batch calls the coordinator back, a batch goes
    through exactly when the two arrays have the same length, the batch is
    not empty, and every item is authentic, carries the nonce the ledger
    expects once the earlier items of its sender are counted, and that
    nonce is below the largest uint256 (the increment is checked). What
    the targets answer plays no part. *)
Theorem batch_goes_through_iff msg_sender s requests signatures :
  quiet requests ->
  (exists s' results,
     commit (executeBatch msg_sender requests signatures) s = (s', inr results))
  <->
  (length requests = length signatures
   /\ requests <> []
   /\ forall i req signature,
        requests !! i = Some req -> signatures !! i = Some signature ->
        authentic (DOMAIN_SEPARATOR s) req signature = true
        /\ nonce req = getNonce (from req) s + sent_by (from req) (take i requests)
        /\ nonce req < MAX_UINT256).
Proof.
  intros Hquiet. split.
  - intros (s' & results & Hrun).
    apply executeBatch_inv in Hrun as (Hlen & Hne & out & s_n & Hloop & _).
    split; [exact Hlen|]. split; [exact Hne|].
    intros i req signature Hreq Hsig.
    destruct (zip_item requests signatures i req signature Hlen Hreq Hsig)
      as (Hitem & _ & Htake).
    destruct (loop_trace _ _ _ _ _ _ _ _ _ _ _ (reentry_sound call_depth)
                Hloop Hitem)
      as (out_i & s_i & Hpre & Hauth & Hnonce & Hmax & _).
    split; [exact Hauth|]. split; [|exact Hmax].
    rewrite Hnonce.
    rewrite (loop_ledger_quiet _ _ _ _ _ _ _ _
               ltac:(rewrite Htake; apply quiet_take; exact Hquiet) Hpre),
      Htake.
    reflexivity.
  - intros (Hlen & Hne & Hvalid).
    unfold commit. rewrite executeBatch_unfold.
    rewrite Hlen, N.eqb_refl.
    assert (Hpos : (0 <? N.of_nat (length signatures)) = true).
    { apply N.ltb_lt. rewrite <- Hlen. destruct requests; [congruence|].
      simpl length. lia. }
    rewrite Hpos.
    assert (Hmap : map fst (zip requests signatures) = requests)
      by (apply fst_zip; lia).
    destruct (loop_accepts_quiet (reentry call_depth) (zip requests signatures) 0
                (replicate (length signatures) false) 0 s)
      as (out & s' & ->); [rewrite Hmap; exact Hquiet| |eauto].
    intros j req signature Hj.
    apply lookup_zip_with_Some in Hj as (req' & sig' & Heq & Hreq & Hsig).
    injection Heq as <- <-.
    destruct (Hvalid j req signature Hreq Hsig) as (Hauth & Hnonce & Hmax).
    split; [exact Hauth|split; [|exact Hmax]].
    destruct (zip_item requests signatures j req signature Hlen Hreq Hsig)
      as (_ & _ & Htake).
    rewrite Htake. exact Hnonce.
Qed.

(** *** Over several calls *)

Lemma submit_grows b s :
  DOMAIN_SEPARATOR (submit b s) = DOMAIN_SEPARATOR s
  /\ (forall a, getNonce a s <= getNonce a (submit b s))
  /\ (exists evs, events (submit b s) = events s ++ evs).
Proof.
  pose proof (executeBatch_sound (submitter b) (submitted b) (signed_with b) s)
    as Hgrows.
  fold (submit b s) in Hgrows.
  split; [exact (proj1 Hgrows)|]. split.
  - intros a. apply grows_le. exact Hgrows.
  - destruct Hgrows as (_ & log & Hlog & _). eauto.
Qed.

Lemma submit_all_grows bs : forall s,
  DOMAIN_SEPARATOR (submit_all bs s) = DOMAIN_SEPARATOR s
  /\ (forall a, getNonce a s <= getNonce a (submit_all bs s))
  /\ (exists evs, events (submit_all bs s) = events s ++ evs).
Proof.
  induction bs as [|b bs IH]; intros s.
  - simpl. split; [reflexivity|]. split; [intros; lia|].
    exists []. symmetry. apply app_nil_r.
  - simpl. destruct (IH (submit b s)) as (Hsep & Hledger & [evs Hevs]).
    destruct (submit_grows b s) as (Hsep1 & Hledger1 & [evs1 Hevs1]).
    split; [congruence|]. split.
    + intros a. specialize (Hledger a). specialize (Hledger1 a). lia.
    + rewrite Hevs, Hevs1, <- app_assoc. eauto.
Qed.

(** Whatever batches are submitted, accepted or not, the counter of a
    sender never goes down, the domain separator stays what the constructor
    made it, and the log only grows. *)
Theorem ledger_only_grows bs s :
  DOMAIN_SEPARATOR (submit_all bs s) = DOMAIN_SEPARATOR s
  /\ (forall a, getNonce a s <= getNonce a (submit_all bs s))
  /\ (exists evs, events (submit_all bs s) = events s ++ evs).
Proof. apply submit_all_grows. Qed.

(** A request that was executed in a batch is never executed again: after
    any further calls, every batch that contains it, under any signature
    and at any position, is rejected as a whole. *)
Theorem executed_request_is_never_executed_again
    msg_sender s requests signatures s1 results i req
    later msg_sender' requests' signatures' j signature' :
  commit (executeBatch msg_sender requests signatures) s = (s1, inr results) ->
  requests !! i = Some req ->
  requests' !! j = Some req ->
  signatures' !! j = Some signature' ->
  exists e,
    commit (executeBatch msg_sender' requests' signatures') (submit_all later s1)
    = (submit_all later s1, inl e).
Proof.
  intros Hrun Hreq Hreq' Hsig'.
  pose proof (consumed_is_stale _ _ _ _ _ _ _ _ Hrun Hreq) as Hstale.
  destruct (submit_all_grows later s1) as (_ & Hledger & _).
  specialize (Hledger (from req)).
  apply commit_reverted.
  eapply executeBatch_rejects_stale; [exact Hreq'|exact Hsig'|].
  lia.
Qed.

Lemma sent_by_item a (items : list (ForwardRequest * bytes)) i req signature :
  items !! i = Some (req, signature) -> from req = a ->
  1 <= sent_by a (map fst items).
Proof.
  revert i. induction items as [|[r sg] items IH]; intros i Hi Hfrom; [discriminate|].
  destruct i as [|i]; simpl in *.
  - injection Hi as -> ->. rewrite Hfrom, N.eqb_refl. lia.
  - specialize (IH i Hi Hfrom). destruct (from r =? a); lia.
Qed.

(** In one state [verify] accepts one nonce per sender, so two requests of
    one sender that both verify against the same storage cannot go through
    in one batch: by the turn of the second the first has used the nonce. *)
Theorem one_request_per_sender_and_state
    s req1 signature1 req2 signature2
    msg_sender requests signatures i j :
  verify req1 signature1 s = Success true s ->
  verify req2 signature2 s = Success true s ->
  from req1 = from req2 ->
  (i < j)%nat ->
  requests !! i = Some req1 ->
  requests !! j = Some req2 ->
  signatures !! j = Some signature2 ->
  nonce req1 = nonce req2
  /\ exists e,
       commit (executeBatch msg_sender requests signatures) s = (s, inl e).
Proof.
  intros Hv1 Hv2 Hfrom Hij Hi Hj Hsig.
  apply verify_true_iff in Hv1 as [_ Hn1].
  apply verify_true_iff in Hv2 as [_ Hn2].
  split; [congruence|].
  apply commit_reverted.
  eapply executeBatch_rejects; [exact Hj|exact Hsig|].
  intros s_j Hturn Hverify.
  apply verify_true_iff in Hverify as [_ Hn].
  apply storage_at_turn_unfold in Hturn as [out Hrun].
  apply loop_grows in Hrun as (_ & _ & Hbound); [|apply reentry_sound].
  specialize (Hbound (from req2)).
  assert (Hsigs : (i < length signatures)%nat)
    by (apply lookup_lt_Some in Hsig; lia).
  destruct (lookup_lt_is_Some_2 signatures i Hsigs) as [signature_i Hsig_i].
  assert (Hitem : take j (zip requests signatures) !! i = Some (req1, signature_i)).
  { rewrite lookup_take_lt by exact Hij.
    apply lookup_zip_with_Some. eauto. }
  pose proof (sent_by_item (from req2) _ _ _ _ Hitem Hfrom). lia.
Qed.

(** *** Reading a signature *)

Lemma signature_parts r s v :
  r < 2 ^ 256 -> s < 2 ^ 256 ->
  length (word r ++ word s ++ [v]) = 65%nat
  /\ sig_r (word r ++ word s ++ [v]) = r
  /\ sig_s (word r ++ word s ++ [v]) = s
  /\ sig_v (word r ++ word s ++ [v]) = v.
Proof.
  intros Hr Hs.
  assert (Hlen : forall n, length (word n) = 32%nat)
    by (intros n; unfold word; apply length_be_bytes).
  split; [rewrite !length_app, !Hlen; reflexivity|].
  unfold sig_r, sig_s, sig_v. split; [|split].
  - rewrite take_app_length' by (symmetry; apply Hlen).
    apply be_decode_word, Hr.
  - rewrite drop_app_length' by (symmetry; apply Hlen).
    rewrite take_app_length' by (symmetry; apply Hlen).
    apply be_decode_word, Hs.
  - rewrite app_assoc. unfold bytes.
    rewrite (list_lookup_middle (word r ++ word s) [] v 64)
      by (rewrite length_app, !Hlen; reflexivity).
    reflexivity.
Qed.

(** [_recoverSigner] takes a signature apart as it was put together: on the
    65 bytes of [r], [s] and [v] it asks ecrecover about exactly these, and
    returns the address recovered unless it is zero; a signature of any
    other length is refused before ecrecover is asked. *)
Theorem signature_is_read_as_assembled dgst r s v st :
  r < 2 ^ 256 -> s < 2 ^ 256 ->
  _recoverSigner dgst (word r ++ word s ++ [v]) st
  = (if ecrecover dgst v r s =? 0
     then Reverted (RequireFailed "BatchExecutor: invalid signature") st
     else Success (ecrecover dgst v r s) st)
  /\ (forall signature, length signature <> 65%nat ->
        _recoverSigner dgst signature st
        = Reverted (RequireFailed "BatchExecutor: invalid signature length") st).
Proof.
  intros Hr Hs. split.
  - destruct (signature_parts r s v Hr Hs) as (Hlen & Hpr & Hps & Hpv).
    unfold _recoverSigner. tx_unfold. rewrite Hlen, Hpr, Hps, Hpv. simpl.
    destruct (ecrecover dgst v r s =? 0); reflexivity.
  - intros signature Hlen. unfold _recoverSigner. tx_unfold.
    assert (Hne : (N.of_nat (length signature) =? 65) = false)
      by (apply N.eqb_neq; lia).
    rewrite Hne. reflexivity.
Qed.

End Proofs.

(** *** A target reads the sender back *)

Import SampleToken.

Lemma be_decode_zeros bs k :
  be_decode (bs ++ replicate k 0) = be_decode bs * 256 ^ N.of_nat k.
Proof.
  induction k as [|k IH].
  - simpl. rewrite app_nil_r. lia.
  - rewrite replicate_S_end, app_assoc, be_decode_snoc, IH.
    rewrite Nat2N.inj_succ, N.pow_succ_r by lia. lia.
Qed.

(** The last 20 bytes of the calldata, read the way [_msgSender] reads
    them. *)
Lemma read_trailing_address payload tail :
  length tail = 20%nat ->
  shr 96 (calldataload (payload ++ tail) (length (payload ++ tail) - 20))
  = be_decode tail.
Proof.
  intros Htail. unfold shr, calldataload.
  rewrite length_app, Htail.
  replace (length payload + 20 - 20)%nat with (length payload) by lia.
  rewrite drop_app_length.
  replace (take 32 (tail ++ replicate 32 0)) with (tail ++ replicate 12 0).
  - rewrite be_decode_zeros. rewrite N.shiftr_div_pow2.
    change (256 ^ N.of_nat 12) with (2 ^ 96). apply N.div_mul. discriminate.
  - rewrite take_app, Htail.
    rewrite take_ge by lia. reflexivity.
Qed.

(** The sender the coordinator appends to the payload is the sender the
    token reads when the coordinator is its trusted forwarder; any other
    caller is taken for itself, whatever calldata it sends. *)
Theorem forwarded_sender_is_read_back `{Precompiles} forwarder req :
  from req < 2 ^ 160 ->
  _msgSender forwarder forwarder (envelope req) = from req
  /\ (forall caller msg_data, caller <> forwarder ->
        _msgSender forwarder caller msg_data = caller).
Proof.
  intros Hfrom. split.
  - unfold _msgSender, envelope. rewrite N.eqb_refl.
    assert (Htail : length (be_bytes 20 (from req)) = 20%nat)
      by apply length_be_bytes.
    assert (Hlong : (20 <=? N.of_nat (length (data req ++ be_bytes 20 (from req)))) = true)
      by (apply N.leb_le; rewrite length_app, Htail; lia).
    rewrite Hlong. simpl andb. cbv iota.
    rewrite read_trailing_address by exact Htail.
    rewrite be_decode_be_bytes. apply N.mod_small. exact Hfrom.
  - intros caller msg_data Hne. unfold _msgSender.
    apply N.eqb_neq in Hne. rewrite Hne. reflexivity.
Qed.

(** ** The properties on the toy coordinator *)

Section Witnesses.
Import Scenario.

Lemma batch_goes_through_iff_witness :
  exists s' results,
    commit (executeBatch relayer [request alice 101 0; request alice 100 1]
              [toy_sign 1 alice (request alice 101 0);
               toy_sign 1 alice (request alice 100 1)]) fresh
    = (s', inr results).
Proof.
  apply (proj2 (batch_goes_through_iff relayer fresh
                  [request alice 101 0; request alice 100 1]
                  [toy_sign 1 alice (request alice 101 0);
                   toy_sign 1 alice (request alice 100 1)]
                  (toy_targets_are_quiet _))).
  split; [reflexivity|]. split; [discriminate|].
  intros [|[|i]] req signature Hreq Hsig; simpl in Hreq, Hsig; try discriminate;
    injection Hreq as <-; injection Hsig as <-;
    (split; [vm_compute; reflexivity|]);
    (split; [vm_compute; reflexivity|]); vm_compute; reflexivity.
Defined.

Lemma batch_log_matches_results_witness :
  events (fst (commit (executeBatch relayer
                         [request alice 101 0; request bob 100 0]
                         [toy_sign 1 alice (request alice 101 0);
                          toy_sign 1 bob (request bob 100 0)]) fresh))
  = events fresh
    ++ item_events [request alice 101 0; request bob 100 0] [false; true]
    ++ [BatchExecuted relayer
          (N.of_nat (length [request alice 101 0; request bob 100 0]))
          (count_true [false; true])].
Proof.
  destruct (batch_log_matches_results relayer fresh
              [request alice 101 0; request bob 100 0]
              [toy_sign 1 alice (request alice 101 0);
               toy_sign 1 bob (request bob 100 0)]
              (fst (commit (executeBatch relayer
                              [request alice 101 0; request bob 100 0]
                              [toy_sign 1 alice (request alice 101 0);
                               toy_sign 1 bob (request bob 100 0)]) fresh))
              [false; true])
    as (_ & log & Hlog & _ & Hquiet).
  - vm_compute. reflexivity.
  - rewrite Hlog, (Hquiet (toy_targets_are_quiet _)). reflexivity.
Defined.

(** Alice's request is executed, Bob's batch follows, and then Bob hands
    in Alice's request and signature once more. *)
Lemma executed_request_is_never_executed_again_witness :
  exists e,
    commit (executeBatch bob [request alice 100 0]
              [toy_sign 1 alice (request alice 100 0)])
      (submit_all
         [{| submitter := relayer; submitted := [request bob 100 0];
             signed_with := [toy_sign 1 bob (request bob 100 0)] |}]
         (fst (commit (executeBatch relayer [request alice 100 0]
                         [toy_sign 1 alice (request alice 100 0)]) fresh)))
    = (submit_all
         [{| submitter := relayer; submitted := [request bob 100 0];
             signed_with := [toy_sign 1 bob (request bob 100 0)] |}]
         (fst (commit (executeBatch relayer [request alice 100 0]
                         [toy_sign 1 alice (request alice 100 0)]) fresh)),
       inl e).
Proof.
  apply (executed_request_is_never_executed_again relayer fresh
           [request alice 100 0] [toy_sign 1 alice (request alice 100 0)]
           (fst (commit (executeBatch relayer [request alice 100 0]
                           [toy_sign 1 alice (request alice 100 0)]) fresh))
           [true] 0%nat (request alice 100 0)
           [{| submitter := relayer; submitted := [request bob 100 0];
               signed_with := [toy_sign 1 bob (request bob 100 0)] |}]
           bob [request alice 100 0] [toy_sign 1 alice (request alice 100 0)]
           0%nat (toy_sign 1 alice (request alice 100 0))).
  - vm_compute. reflexivity.
  - reflexivity.
  - reflexivity.
  - reflexivity.
Defined.

(** Two requests of Alice, both signed against the fresh ledger. *)
Lemma one_request_per_sender_and_state_witness :
  nonce (request alice 100 0) = nonce (request alice 102 0)
  /\ exists e,
       commit (executeBatch relayer [request alice 100 0; request alice 102 0]
                 [toy_sign 1 alice (request alice 100 0);
                  toy_sign 1 alice (request alice 102 0)]) fresh
       = (fresh, inl e).
Proof.
  apply (one_request_per_sender_and_state fresh
           (request alice 100 0) (toy_sign 1 alice (request alice 100 0))
           (request alice 102 0) (toy_sign 1 alice (request alice 102 0))
           relayer [request alice 100 0; request alice 102 0]
           [toy_sign 1 alice (request alice 100 0);
            toy_sign 1 alice (request alice 102 0)] 0%nat 1%nat).
  - vm_compute. reflexivity.
  - vm_compute. reflexivity.
  - reflexivity.
  - lia.
  - reflexivity.
  - reflexivity.
  - reflexivity.
Defined.

Lemma signature_is_read_as_assembled_witness :
  _recoverSigner 5 (word 5 ++ word 7 ++ [27]) fresh = Success 7 fresh.
Proof.
  destruct (signature_is_read_as_assembled 5 5 7 27 fresh) as [Hread _].
  - vm_compute. reflexivity.
  - vm_compute. reflexivity.
  - exact Hread.
Defined.

Lemma forwarded_sender_is_read_back_witness :
  SampleToken._msgSender 4242 4242 (envelope (request alice 100 0)) = alice.
Proof.
  destruct (forwarded_sender_is_read_back 4242 (request alice 100 0)) as [Hread _].
  - vm_compute. reflexivity.
  - exact Hread.
Defined.

End Witnesses.

End MoreBatchProofs.

(** * More properties of the sponsorship pool *)

Module MorePoolProofs.
Import GasSponsor GasSpec GasSponsorAdmin PoolRuns GasProofs.

Section Proofs.
Context `{World}.

(** *** What a claim leaves alone *)

Lemma settled_static msg_sender block_timestamp amount users s :
  static (settled s msg_sender block_timestamp amount users) = static s.
Proof.
  unfold settled, tracked. cbv zeta.
  set (s3 := roll_global _ _).
  assert (H3 : static s3 = static s).
  { subst s3. unfold roll_global.
    destruct (_ <? _);
      [change (static (set_globalLastClaimDay ?a (set_globalDailyClaimed ?b ?st)))
         with (static st)|];
      rewrite (users_frame static) by reflexivity;
      unfold roll_relayer; destruct (_ <? _); reflexivity. }
  rewrite <- H3.
  match goal with |- context [charge_users ?per ?us ?s4] =>
    change (static (charge_users per us s4) = static s3) end.
  rewrite (charge_frame static) by reflexivity. reflexivity.
Qed.


(** *** Each call, as committed *)

Lemma perform_deposit a v p :
  perform (Deposit a v) p =
  if (0 <? v) && (totalDeposited (storage p) + v <=? MAX_UINT256)
  then write (fun s => emit (Deposited a v)
                         (set_totalDeposited (totalDeposited s + v) (credit v s))) p
  else p.
Proof.
  unfold perform, commit, call_tx, on_storage, deposit. tx_unfold.
  destruct (0 <? v); simpl; [|reflexivity].
  destruct (_ <=? _); reflexivity.
Qed.

Lemma perform_receive a v p :
  perform (Receive a v) p =
  if totalDeposited (storage p) + v <=? MAX_UINT256
  then write (fun s => emit (Deposited a v)
                         (set_totalDeposited (totalDeposited s + v) (credit v s))) p
  else p.
Proof.
  unfold perform, commit, call_tx, on_storage, receive. tx_unfold. simpl.
  destruct (_ <=? _); reflexivity.
Qed.

Lemma do_claim_cases c s :
  do_claim c s = s
  \/ (read_flag (whitelistedRelayers s) (caller c) = true
      /\ paused s = false
      /\ checks_pass s (caller c) (at_time c) (asked c) (named c) = true
      /\ do_claim c s = settled s (caller c) (at_time c) (asked c) (named c)).
Proof.
  unfold do_claim, commit.
  destruct (claim (caller c) (at_time c) (asked c) (named c) s) as [[] s'|e d] eqn:Hrun;
    [right|left; reflexivity].
  apply claim_success_inv in Hrun as (Hlisted & Hpaused & Hchecks & _ & ->).
  auto.
Qed.

Lemma perform_claim a t amount users p :
  perform (Claim a t amount users) p
  = write (do_claim {| caller := a; at_time := t; asked := amount; named := users |}) p.
Proof.
  unfold perform, commit, call_tx, on_storage, do_claim, commit, write. simpl.
  destruct (claim a t amount users (storage p)) as [[] s'|e d]; simpl; [reflexivity|].
  destruct p; reflexivity.
Qed.

Lemma perform_setRelayer a r b p :
  perform (SetRelayer a r b) p =
  if a =? owner (storage p)
  then emit_admin (RelayerStatusChanged r b) (write (set_whitelistedRelayers r b) p)
  else p.
Proof.
  unfold perform, commit, call_tx, setRelayer, onlyOwner. tx_unfold.
  destruct (a =? owner (storage p)); reflexivity.
Qed.

Lemma perform_setLimits a c r u g p :
  perform (SetLimits a c r u g) p =
  if a =? owner (storage p)
  then emit_admin (LimitsUpdated c r u g) (write (set_limits c r u g) p)
  else p.
Proof.
  unfold perform, commit, call_tx, setLimits, onlyOwner. tx_unfold.
  destruct (a =? owner (storage p)); reflexivity.
Qed.

Lemma perform_setPaused a b p :
  perform (SetPaused a b) p =
  if a =? owner (storage p)
  then emit_admin (Paused b) (write (set_paused b) p)
  else p.
Proof.
  unfold perform, commit, call_tx, setPaused, onlyOwner. tx_unfold.
  destruct (a =? owner (storage p)); reflexivity.
Qed.

Lemma perform_transferOwnership a n p :
  perform (TransferOwnership a n) p =
  if (a =? owner (storage p)) && negb (n =? 0)
  then write (set_owner n) (emit_admin (OwnershipTransferred (owner (storage p)) n) p)
  else p.
Proof.
  unfold perform, commit, call_tx, transferOwnership, onlyOwner. tx_unfold.
  destruct (a =? owner (storage p)); [|reflexivity].
  destruct (n =? 0); reflexivity.
Qed.

Lemma perform_emergencyWithdraw a p :
  perform (EmergencyWithdraw a) p =
  if (a =? owner (storage p))
     && transfer_call (storage p) (owner (storage p)) (balance (storage p))
  then emit_admin (EmergencyWithdrawal (owner (storage p)) (balance (storage p)))
         (write (pay (owner (storage p)) (balance (storage p))) p)
  else p.
Proof.
  unfold perform, commit, call_tx, emergencyWithdraw, onlyOwner. tx_unfold.
  destruct (a =? owner (storage p)); [|reflexivity]. simpl.
  destruct (transfer_call _ _ _); reflexivity.
Qed.


(** *** The books *)

Lemma deposited_in_app l1 l2 :
  deposited_in (l1 ++ l2) = deposited_in l1 + deposited_in l2.
Proof. induction l1 as [|[] l1 IH]; simpl; lia. Qed.

Lemma claimed_in_app l1 l2 : claimed_in (l1 ++ l2) = claimed_in l1 + claimed_in l2.
Proof. induction l1 as [|[] l1 IH]; simpl; lia. Qed.

Lemma claims_in_app l1 l2 : claims_in (l1 ++ l2) = claims_in l1 + claims_in l2.
Proof. induction l1 as [|[] l1 IH]; simpl; lia. Qed.

Lemma withdrawn_in_app l1 l2 :
  withdrawn_in (l1 ++ l2) = withdrawn_in l1 + withdrawn_in l2.
Proof. induction l1 as [|[] l1 IH]; simpl; lia. Qed.

Lemma paid_total_snoc ps a v : paid_total (ps ++ [(a, v)]) = paid_total ps + v.
Proof.
  unfold paid_total, sum_N. induction ps as [|[b w] ps IH]; simpl in *; lia.
Qed.

Lemma checks_pass_pool s a t amount users :
  checks_pass s a t amount users = true -> capped s amount <= balance s.
Proof.
  unfold checks_pass. intros Hc.
  apply andb_true_iff in Hc as [_ Hpool]. apply N.leb_le in Hpool. exact Hpool.
Qed.

Lemma books_deposit a v p :
  books_balance p ->
  books_balance
    (write (fun s => emit (Deposited a v)
                       (set_totalDeposited (totalDeposited s + v) (credit v s))) p).
Proof.
  unfold books_balance. cbv zeta. simpl.
  intros (Hd & Hc & Hn & Hb & Hp).
  rewrite deposited_in_app, claimed_in_app, claims_in_app. simpl.
  split; [lia|]. split; [lia|]. split; [lia|]. split; [lia|exact Hp].
Qed.

Lemma books_claim c p : books_balance p -> books_balance (write (do_claim c) p).
Proof.
  intros Hbooks.
  destruct (do_claim_cases c (storage p)) as [Hsame|(_ & _ & Hchecks & Hdone)].
  - unfold write. rewrite Hsame. destruct p. exact Hbooks.
  - apply checks_pass_pool in Hchecks.
    destruct (settled_fields (caller c) (at_time c) (asked c) (named c) (storage p))
      as (Hpay & Hbal & Hev & _ & _ & Htc & Hcc & _).
    cbv zeta in *.
    pose proof (settled_static (caller c) (at_time c) (asked c) (named c) (storage p))
      as Hstatic.
    assert (Htd : totalDeposited (settled (storage p) (caller c) (at_time c)
                                    (asked c) (named c))
                  = totalDeposited (storage p))
      by (unfold static in Hstatic; congruence).
    unfold books_balance in *. cbv zeta in *. unfold write. simpl.
    rewrite Hdone, Htd, Hpay, Hbal, Hev, Htc, Hcc.
    destruct Hbooks as (Hd & Hc & Hn & Hb & Hp).
    rewrite deposited_in_app, claimed_in_app, claims_in_app, paid_total_snoc.
    simpl. split; [lia|]. split; [lia|]. split; [lia|]. split; lia.
Qed.

Lemma books_step c p : books_balance p -> books_balance (perform c p).
Proof.
  intros Hbooks. destruct c as [a v|a v|a t amount users|a r b|a c r u g|a b|a n|a].
  - rewrite perform_deposit. destruct (_ && _); [apply books_deposit|]; exact Hbooks.
  - rewrite perform_receive. destruct (_ <=? _); [apply books_deposit|]; exact Hbooks.
  - rewrite perform_claim. apply books_claim. exact Hbooks.
  - rewrite perform_setRelayer. destruct (_ =? _); [|exact Hbooks].
    unfold books_balance in *. simpl. rewrite withdrawn_in_app. simpl.
    rewrite N.add_0_r. exact Hbooks.
  - rewrite perform_setLimits. destruct (_ =? _); [|exact Hbooks].
    unfold books_balance in *. simpl. rewrite withdrawn_in_app. simpl.
    rewrite N.add_0_r. exact Hbooks.
  - rewrite perform_setPaused. destruct (_ =? _); [|exact Hbooks].
    unfold books_balance in *. simpl. rewrite withdrawn_in_app. simpl.
    rewrite N.add_0_r. exact Hbooks.
  - rewrite perform_transferOwnership. destruct (_ && _); [|exact Hbooks].
    unfold books_balance in *. simpl. rewrite withdrawn_in_app. simpl.
    rewrite N.add_0_r. exact Hbooks.
  - rewrite perform_emergencyWithdraw. destruct (_ && _); [|exact Hbooks].
    unfold books_balance in *. cbv zeta in *. simpl.
    rewrite withdrawn_in_app, paid_total_snoc. simpl.
    destruct Hbooks as (Hd & Hc & Hn & Hb & Hp).
    split; [exact Hd|]. split; [exact Hc|]. split; [exact Hn|]. split; lia.
Qed.

Lemma books_run cs : forall p, books_balance p -> books_balance (perform_all cs p).
Proof.
  induction cs as [|c cs IH]; intros p Hbooks; [exact Hbooks|].
  simpl. apply IH, books_step, Hbooks.
Qed.

(** From its deployment on, whatever is called by whomever, the books of
    the pool balance: the three totals are the sums and the number of the
    records of the log, every wei deposited is in the pool, was claimed or
    was withdrawn by the owner, and the contract has paid out exactly what
    was claimed and withdrawn. *)
Theorem books_balance_from_deployment
    deployer perClaim perRelayer perUser global cs :
  books_balance
    (perform_all cs (constructor deployer perClaim perRelayer perUser global)).
Proof.
  apply books_run. unfold books_balance. simpl. auto.
Qed.


(** *** Without the owner *)

Lemma static_configuration p q :
  static (storage q) = static (storage p) -> configuration q = configuration p.
Proof. unfold static, configuration. intros Heq. injection Heq as -> -> -> -> -> -> ->. reflexivity. Qed.

Lemma claim_step c p :
  static (storage (write (do_claim c) p)) = static (storage p)
  /\ admin_events (write (do_claim c) p) = admin_events p
  /\ (payments (storage (write (do_claim c) p)) = payments (storage p)
      \/ (read_flag (whitelistedRelayers (storage p)) (caller c) = true
          /\ paused (storage p) = false
          /\ payments (storage (write (do_claim c) p))
             = payments (storage p) ++ [(caller c, capped (storage p) (asked c))])).
Proof.
  unfold write. simpl.
  destruct (do_claim_cases c (storage p)) as [->|(Hlisted & Hpaused & _ & ->)].
  - split; [reflexivity|]. split; [reflexivity|]. left. reflexivity.
  - rewrite settled_static.
    destruct (settled_fields (caller c) (at_time c) (asked c) (named c) (storage p))
      as (Hpay & _).
    cbv zeta in Hpay. rewrite Hpay.
    split; [reflexivity|]. split; [reflexivity|]. right. auto.
Qed.

Lemma stranger_step c p :
  sender_of c <> owner (storage p) ->
  configuration (perform c p) = configuration p
  /\ admin_events (perform c p) = admin_events p
  /\ exists paid,
       payments (storage (perform c p)) = payments (storage p) ++ paid
       /\ Forall (sponsored_payment p) paid.
Proof.
  intros Hstranger.
  assert (Hsame : configuration p = configuration p
                  /\ admin_events p = admin_events p
                  /\ exists paid,
                       payments (storage p) = payments (storage p) ++ paid
                       /\ Forall (sponsored_payment p) paid).
  { split; [reflexivity|]. split; [reflexivity|].
    exists []. rewrite app_nil_r. split; [reflexivity|constructor]. }
  destruct c as [a v|a v|a t amount users|a r b|a c r u g|a b|a n|a];
    simpl in Hstranger; apply N.eqb_neq in Hstranger.
  - rewrite perform_deposit. destruct (_ && _); [|exact Hsame].
    split; [reflexivity|]. split; [reflexivity|].
    exists []. simpl. rewrite app_nil_r. split; [reflexivity|constructor].
  - rewrite perform_receive. destruct (_ <=? _); [|exact Hsame].
    split; [reflexivity|]. split; [reflexivity|].
    exists []. simpl. rewrite app_nil_r. split; [reflexivity|constructor].
  - rewrite perform_claim.
    destruct (claim_step {| caller := a; at_time := t; asked := amount;
                            named := users |} p)
      as (Hstatic & Hlog & [Hpay|(Hlisted & _ & Hpay)]).
    + split; [apply static_configuration, Hstatic|]. split; [exact Hlog|].
      exists []. rewrite app_nil_r. split; [exact Hpay|constructor].
    + split; [apply static_configuration, Hstatic|]. split; [exact Hlog|].
      eexists. split; [exact Hpay|].
      constructor; [|constructor]. split; [exact Hlisted|apply capped_le].
  - rewrite perform_setRelayer, Hstranger. exact Hsame.
  - rewrite perform_setLimits, Hstranger. exact Hsame.
  - rewrite perform_setPaused, Hstranger. exact Hsame.
  - rewrite perform_transferOwnership, Hstranger. exact Hsame.
  - rewrite perform_emergencyWithdraw, Hstranger. exact Hsame.
Qed.

(** As long as the owner does not call, nothing of what the owner decides
    changes (owner, pause, whitelist, the four limits), no record of the
    owner's functions is logged, and money leaves the pool only to relayers
    on the whitelist, at most [maxPerClaim] at a time. *)
Theorem only_the_owner_configures cs : forall p,
  Forall (fun c => sender_of c <> owner (storage p)) cs ->
  configuration (perform_all cs p) = configuration p
  /\ admin_events (perform_all cs p) = admin_events p
  /\ exists paid,
       payments (storage (perform_all cs p)) = payments (storage p) ++ paid
       /\ Forall (sponsored_payment p) paid.
Proof.
  induction cs as [|c cs IH]; intros p Hstrangers.
  - simpl. split; [reflexivity|]. split; [reflexivity|].
    exists []. rewrite app_nil_r. split; [reflexivity|constructor].
  - apply Forall_cons in Hstrangers as [Hc Hcs]. simpl.
    destruct (stranger_step c p Hc) as (Hconf & Hlog & paid1 & Hpay1 & Hall1).
    assert (Howner : owner (storage (perform c p)) = owner (storage p))
      by (unfold configuration in Hconf; congruence).
    assert (Hlist : whitelistedRelayers (storage (perform c p))
                    = whitelistedRelayers (storage p))
      by (unfold configuration in Hconf; congruence).
    assert (Hcap : maxPerClaim (storage (perform c p)) = maxPerClaim (storage p))
      by (unfold configuration in Hconf; congruence).
    rewrite <- Howner in Hcs.
    destruct (IH (perform c p) Hcs) as (Hconf' & Hlog' & paid2 & Hpay2 & Hall2).
    split; [congruence|]. split; [congruence|].
    exists (paid1 ++ paid2). split.
    + rewrite Hpay2, Hpay1, <- app_assoc. reflexivity.
    + apply Forall_app. split; [exact Hall1|].
      unfold sponsored_payment in *. rewrite Hlist, Hcap in Hall2. exact Hall2.
Qed.

(** *** The owner *)

Lemma owner_step c p :
  owner (storage (perform c p)) = owner (storage p)
  \/ exists n, c = TransferOwnership (owner (storage p)) n
               /\ n <> 0
               /\ owner (storage (perform c p)) = n.
Proof.
  destruct c as [a v|a v|a t amount users|a r b|a c r u g|a b|a n|a].
  - rewrite perform_deposit. destruct (_ && _); left; reflexivity.
  - rewrite perform_receive. destruct (_ <=? _); left; reflexivity.
  - rewrite perform_claim. left.
    destruct (claim_step {| caller := a; at_time := t; asked := amount;
                            named := users |} p) as (Hstatic & _).
    unfold static in Hstatic. congruence.
  - rewrite perform_setRelayer. destruct (_ =? _); left; reflexivity.
  - rewrite perform_setLimits. destruct (_ =? _); left; reflexivity.
  - rewrite perform_setPaused. destruct (_ =? _); left; reflexivity.
  - rewrite perform_transferOwnership.
    destruct (a =? owner (storage p)) eqn:Ha; [|left; reflexivity].
    destruct (n =? 0) eqn:Hn; [left; reflexivity|].
    right. exists n. apply N.eqb_eq in Ha. apply N.eqb_neq in Hn.
    subst a. auto.
  - rewrite perform_emergencyWithdraw. destruct (_ && _); left; reflexivity.
Qed.

(** The pool never loses its owner: the owner changes only when the
    current owner hands the pool over, and never to the zero address, so
    after any calls there is still an address that passes [onlyOwner]. *)
Theorem pool_always_has_an_owner cs : forall p,
  owner (storage p) <> 0 ->
  owner (storage (perform_all cs p)) <> 0.
Proof.
  induction cs as [|c cs IH]; intros p Howner; [exact Howner|].
  simpl. apply IH.
  destruct (owner_step c p) as [->|(n & _ & Hn & ->)]; assumption.
Qed.


(** *** The daily counters after a claim *)

Lemma settled_relayer_maps m t amount users s :
  relayerDailyClaimed (settled s m t amount users)
  = <[m := relayer_used s (day t) m + capped s amount]>
      (relayerDailyClaimed (roll_relayer (day t) m s))
  /\ relayerLastClaimDay (settled s m t amount users)
     = relayerLastClaimDay (roll_relayer (day t) m s).
Proof.
  unfold settled, tracked. cbv zeta.
  destruct (before_global (day t) m users s) as (_ & _ & _ & Hrel & _).
  cbv zeta in Hrel. rewrite Hrel.
  set (s1 := roll_relayer (day t) m s).
  set (s3 := roll_global (day t) (roll_users (day t) users s1)).
  assert (H3 : relayerDailyClaimed s3 = relayerDailyClaimed s1
               /\ relayerLastClaimDay s3 = relayerLastClaimDay s1).
  { subst s3. unfold roll_global. destruct (_ <? _); simpl;
      rewrite (users_frame relayerDailyClaimed), (users_frame relayerLastClaimDay)
        by reflexivity; auto. }
  destruct H3 as [H3a H3b].
  set (s4 := set_relayerDailyClaimed m _ s3).
  split.
  - change (relayerDailyClaimed (charge_users (capped s amount / N.of_nat (length users))
                                   users s4)
            = <[m := relayer_used s (day t) m + capped s amount]> (relayerDailyClaimed s1)).
    rewrite (charge_frame relayerDailyClaimed) by reflexivity.
    subst s4. simpl. rewrite H3a. reflexivity.
  - change (relayerLastClaimDay (charge_users (capped s amount / N.of_nat (length users))
                                   users s4)
            = relayerLastClaimDay s1).
    rewrite (charge_frame relayerLastClaimDay) by reflexivity.
    subst s4. simpl. exact H3b.
Qed.

(** What a claim adds to what is counted against a relayer on its day. *)
Lemma settled_relayer_used m t amount users s a :
  relayer_used (settled s m t amount users) (day t) a
  = relayer_used s (day t) a + (if a =? m then capped s amount else 0).
Proof.
  destruct (settled_relayer_maps m t amount users s) as [Hstored Hlast].
  unfold relayer_used at 1. rewrite Hstored, Hlast.
  unfold roll_relayer, relayer_used.
  destruct (N.eqb_spec a m) as [->|Hne].
  - destruct (read (relayerLastClaimDay s) m <? day t) eqn:Hstale; simpl.
    + rewrite !read_insert. destruct (decide (m = m)); [|congruence].
      rewrite N.ltb_irrefl. reflexivity.
    + rewrite Hstale, read_insert. destruct (decide (m = m)); [|congruence].
      reflexivity.
  - destruct (read (relayerLastClaimDay s) m <? day t); simpl.
    + rewrite !read_insert. destruct (decide (m = a)); [congruence|].
      rewrite N.add_0_r. reflexivity.
    + rewrite read_insert. destruct (decide (m = a)); [congruence|].
      rewrite N.add_0_r. reflexivity.
Qed.

Lemma settled_global_used m t amount users s :
  global_used (settled s m t amount users) (day t)
  = global_used s (day t) + capped s amount.
Proof.
  destruct (settled_fields m t amount users s) as (_ & _ & _ & _ & Hglob & _).
  cbv zeta in Hglob.
  unfold global_used at 1. rewrite Hglob.
  assert (Hlast : globalLastClaimDay (settled s m t amount users)
                  = globalLastClaimDay
                      (roll_global (day t) (roll_users (day t) users
                                              (roll_relayer (day t) m s)))).
  { unfold settled, tracked. cbv zeta.
    match goal with |- context [charge_users ?per ?us ?s4] =>
      change (globalLastClaimDay (charge_users per us s4) = globalLastClaimDay
                (roll_global (day t) (roll_users (day t) users
                                        (roll_relayer (day t) m s)))) end.
    rewrite (charge_frame globalLastClaimDay) by reflexivity. reflexivity. }
  rewrite Hlast. unfold roll_global.
  rewrite (users_frame globalLastClaimDay) by reflexivity.
  assert (Hrel : globalLastClaimDay (roll_relayer (day t) m s) = globalLastClaimDay s)
    by (unfold roll_relayer; destruct (_ <? _); reflexivity).
  rewrite Hrel.
  destruct (globalLastClaimDay s <? day t) eqn:Hstale; simpl.
  - rewrite N.ltb_irrefl. reflexivity.
  - rewrite (users_frame globalLastClaimDay) by reflexivity.
    rewrite Hrel, Hstale. reflexivity.
Qed.



Lemma charge_users_last per users : forall s,
  userLastSponsorDay (charge_users per users s) = userLastSponsorDay s.
Proof.
  induction users as [|u users IH]; intros s; [reflexivity|].
  unfold charge_users in *. simpl fold_left. rewrite IH. reflexivity.
Qed.

Lemma settled_user_maps m t amount users s :
  let per := capped s amount / N.of_nat (length users) in
  let s2 := roll_users (day t) users (roll_relayer (day t) m s) in
  (forall u, read (userDailySponsored (settled s m t amount users)) u
             = read (userDailySponsored s2) u + per * occurrences u users)
  /\ userLastSponsorDay (settled s m t amount users) = userLastSponsorDay s2.
Proof.
  cbv zeta. unfold settled, tracked. cbv zeta.
  set (per := capped s amount / N.of_nat (length users)).
  set (s2 := roll_users (day t) users (roll_relayer (day t) m s)).
  set (s3 := roll_global (day t) s2).
  assert (H3 : userDailySponsored s3 = userDailySponsored s2
               /\ userLastSponsorDay s3 = userLastSponsorDay s2)
    by (subst s3; unfold roll_global; destruct (_ <? _); auto).
  destruct H3 as [H3a H3b].
  set (s4 := set_relayerDailyClaimed m _ s3).
  split.
  - intros u.
    change (read (userDailySponsored (charge_users per users s4)) u
            = read (userDailySponsored s2) u + per * occurrences u users).
    rewrite charge_users_stored. subst s4. simpl. rewrite H3a. reflexivity.
  - change (userLastSponsorDay (charge_users per users s4) = userLastSponsorDay s2).
    rewrite charge_users_last. subst s4. simpl. exact H3b.
Qed.

(** The stored amount of a beneficiary after a claim. *)
Lemma settled_user_stored m t amount users s u :
  read (userDailySponsored (settled s m t amount users)) u
  = (if in_dec N.eq_dec u users then user_used s (day t) u
     else read (userDailySponsored s) u)
    + capped s amount / N.of_nat (length users) * occurrences u users.
Proof.
  destruct (settled_user_maps m t amount users s) as [Hstored _].
  cbv zeta in Hstored. rewrite Hstored, roll_users_stored.
  destruct (in_dec N.eq_dec u users).
  - rewrite roll_relayer_user_used. reflexivity.
  - assert (Hrel : userDailySponsored (roll_relayer (day t) m s) = userDailySponsored s)
      by (unfold roll_relayer; destruct (_ <? _); reflexivity).
    rewrite Hrel. reflexivity.
Qed.



(** *** The views *)

Lemma view_relayer t a s :
  getRelayerDailyRemaining t a s = dailyLimitPerRelayer s - relayer_used s (day t) a.
Proof.
  change (getRelayerDailyRemaining t a s)
    with (if relayer_used s (day t) a <? dailyLimitPerRelayer s
          then dailyLimitPerRelayer s - relayer_used s (day t) a else 0).
  generalize (relayer_used s (day t) a). intros claimed.
  destruct (claimed <? dailyLimitPerRelayer s) eqn:E; [reflexivity|].
  apply N.ltb_ge in E. lia.
Qed.

Lemma view_user t u s :
  getUserDailyRemaining t u s = dailyLimitPerUser s - user_used s (day t) u.
Proof.
  change (getUserDailyRemaining t u s)
    with (if user_used s (day t) u <? dailyLimitPerUser s
          then dailyLimitPerUser s - user_used s (day t) u else 0).
  generalize (user_used s (day t) u). intros claimed.
  destruct (claimed <? dailyLimitPerUser s) eqn:E; [reflexivity|].
  apply N.ltb_ge in E. lia.
Qed.

Lemma view_global t s :
  getGlobalDailyRemaining t s = globalDailyLimit s - global_used s (day t).
Proof.
  change (getGlobalDailyRemaining t s)
    with (if global_used s (day t) <? globalDailyLimit s
          then globalDailyLimit s - global_used s (day t) else 0).
  generalize (global_used s (day t)). intros claimed.
  destruct (claimed <? globalDailyLimit s) eqn:E; [reflexivity|].
  apply N.ltb_ge in E. lia.
Qed.

Lemma checks_pass_inv s m t amount users :
  checks_pass s m t amount users = true ->
  let r := capped s amount in
  let per := r / N.of_nat (length users) in
  relayer_used s (day t) m + r <= dailyLimitPerRelayer s
  /\ (forall u, In u users -> user_used s (day t) u + per <= dailyLimitPerUser s)
  /\ global_used s (day t) + r <= globalDailyLimit s
  /\ r <= balance s.
Proof.
  unfold checks_pass. cbv zeta. intros Hc.
  apply andb_true_iff in Hc as [Hc Hpool].
  apply andb_true_iff in Hc as [Hc Hglobal].
  apply andb_true_iff in Hc as [Hc Husers].
  apply andb_true_iff in Hc as [_ Hrelayer].
  apply N.leb_le in Hpool, Hglobal, Hrelayer.
  split; [exact Hrelayer|]. split; [|split; assumption].
  intros u Hin. rewrite forallb_forall in Husers.
  apply N.leb_le, Husers, Hin.
Qed.

Lemma settled_limits m t amount users s :
  dailyLimitPerRelayer (settled s m t amount users) = dailyLimitPerRelayer s
  /\ dailyLimitPerUser (settled s m t amount users) = dailyLimitPerUser s
  /\ globalDailyLimit (settled s m t amount users) = globalDailyLimit s
  /\ maxPerClaim (settled s m t amount users) = maxPerClaim s.
Proof.
  pose proof (settled_static m t amount users s) as Hstatic.
  unfold static in Hstatic. injection Hstatic as _ _ _ Hc Hr Hu Hg _. auto.
Qed.


(** *** The allowances of a day *)

Lemma do_claims_static cs : forall s, static (do_claims cs s) = static s.
Proof.
  induction cs as [|c cs IH]; intros s; [reflexivity|].
  change (static (do_claims cs (do_claim c s)) = static s). rewrite IH.
  destruct (do_claim_cases c s) as [->|(_ & _ & _ & ->)]; [reflexivity|].
  apply settled_static.
Qed.

Lemma paid_to_snoc a ps m v :
  paid_to a (ps ++ [(m, v)]) = paid_to a ps + (if m =? a then v else 0).
Proof. induction ps as [|[b w] ps IH]; simpl; [|rewrite IH]; lia. Qed.

Lemma relayer_day_step c s t a :
  day (at_time c) = day t ->
  exists d,
    paid_to a (payments (do_claim c s)) = paid_to a (payments s) + d
    /\ relayer_used (do_claim c s) (day t) a = relayer_used s (day t) a + d
    /\ (d = 0 \/ relayer_used (do_claim c s) (day t) a <= dailyLimitPerRelayer s).
Proof.
  intros Hday.
  destruct (do_claim_cases c s) as [->|(_ & _ & Hchecks & ->)].
  - exists 0. rewrite !N.add_0_r. auto.
  - apply checks_pass_inv in Hchecks as (Hrel & _).
    cbv zeta in Hrel. rewrite Hday in Hrel.
    destruct (settled_fields (caller c) (at_time c) (asked c) (named c) s)
      as (Hpay & _).
    cbv zeta in Hpay. rewrite Hpay, paid_to_snoc.
    pose proof (settled_relayer_used (caller c) (at_time c) (asked c) (named c) s a)
      as Hused.
    rewrite Hday in Hused. rewrite Hused.
    rewrite (N.eqb_sym (caller c) a).
    destruct (N.eqb_spec a (caller c)) as [->|Hne].
    + exists (capped s (asked c)). split; [reflexivity|]. split; [reflexivity|].
      right. exact Hrel.
    + exists 0. split; [reflexivity|]. split; [reflexivity|]. left. reflexivity.
Qed.

Lemma relayer_day_run cs t a : forall s,
  Forall (fun c => day (at_time c) = day t) cs ->
  exists d,
    paid_to a (payments (do_claims cs s)) = paid_to a (payments s) + d
    /\ relayer_used (do_claims cs s) (day t) a = relayer_used s (day t) a + d
    /\ (d = 0 \/ relayer_used (do_claims cs s) (day t) a <= dailyLimitPerRelayer s).
Proof.
  induction cs as [|c cs IH]; intros s Hdays.
  - exists 0. simpl. rewrite !N.add_0_r. auto.
  - apply Forall_cons in Hdays as [Hc Hcs].
    change (do_claims (c :: cs) s) with (do_claims cs (do_claim c s)).
    destruct (relayer_day_step c s t a Hc) as (d1 & Hp1 & Hu1 & Hb1).
    destruct (IH (do_claim c s) Hcs) as (d2 & Hp2 & Hu2 & Hb2).
    assert (Hlim : dailyLimitPerRelayer (do_claim c s) = dailyLimitPerRelayer s).
    { pose proof (do_claims_static [c] s) as Hs.
      change (do_claims [c] s) with (do_claim c s) in Hs.
      unfold static in Hs. congruence. }
    rewrite Hlim in Hb2.
    exists (d1 + d2). split; [lia|]. split; [lia|].
    destruct Hb2 as [->|Hb2]; [|right; exact Hb2].
    destruct Hb1 as [->|Hb1]; [left; reflexivity|right].
    rewrite Hu2, N.add_0_r. exact Hb1.
Qed.

(** Over any claims of one day, made by whomever, what a relayer is paid
    is exactly what its remaining allowance of the day goes down by, and
    so never more than the allowance the view reported before. *)
Theorem relayer_is_paid_within_its_allowance cs t a s :
  Forall (fun c => day (at_time c) = day t) cs ->
  paid_to a (payments (do_claims cs s))
  <= paid_to a (payments s) + getRelayerDailyRemaining t a s
  /\ getRelayerDailyRemaining t a (do_claims cs s)
     = getRelayerDailyRemaining t a s
       - (paid_to a (payments (do_claims cs s)) - paid_to a (payments s)).
Proof.
  intros Hdays.
  destruct (relayer_day_run cs t a s Hdays) as (d & Hp & Hu & Hb).
  assert (Hlim : dailyLimitPerRelayer (do_claims cs s) = dailyLimitPerRelayer s).
  { pose proof (do_claims_static cs s) as Hs. unfold static in Hs. congruence. }
  rewrite !view_relayer, Hlim, Hp, Hu.
  destruct Hb as [->|Hb]; [split; lia|].
  rewrite Hu in Hb. split; lia.
Qed.

Lemma global_day_step c s t :
  day (at_time c) = day t ->
  exists d,
    paid_total (payments (do_claim c s)) = paid_total (payments s) + d
    /\ global_used (do_claim c s) (day t) = global_used s (day t) + d
    /\ (d = 0 \/ global_used (do_claim c s) (day t) <= globalDailyLimit s).
Proof.
  intros Hday.
  destruct (do_claim_cases c s) as [->|(_ & _ & Hchecks & ->)].
  - exists 0. rewrite !N.add_0_r. auto.
  - apply checks_pass_inv in Hchecks as (_ & _ & Hglob & _).
    cbv zeta in Hglob. rewrite Hday in Hglob.
    destruct (settled_fields (caller c) (at_time c) (asked c) (named c) s)
      as (Hpay & _).
    cbv zeta in Hpay. rewrite Hpay, paid_total_snoc.
    pose proof (settled_global_used (caller c) (at_time c) (asked c) (named c) s)
      as Hused.
    rewrite Hday in Hused. rewrite Hused.
    exists (capped s (asked c)). split; [reflexivity|]. split; [reflexivity|].
    right. exact Hglob.
Qed.

Lemma global_day_run cs t : forall s,
  Forall (fun c => day (at_time c) = day t) cs ->
  exists d,
    paid_total (payments (do_claims cs s)) = paid_total (payments s) + d
    /\ global_used (do_claims cs s) (day t) = global_used s (day t) + d
    /\ (d = 0 \/ global_used (do_claims cs s) (day t) <= globalDailyLimit s).
Proof.
  induction cs as [|c cs IH]; intros s Hdays.
  - exists 0. simpl. rewrite !N.add_0_r. auto.
  - apply Forall_cons in Hdays as [Hc Hcs].
    change (do_claims (c :: cs) s) with (do_claims cs (do_claim c s)).
    destruct (global_day_step c s t Hc) as (d1 & Hp1 & Hu1 & Hb1).
    destruct (IH (do_claim c s) Hcs) as (d2 & Hp2 & Hu2 & Hb2).
    assert (Hlim : globalDailyLimit (do_claim c s) = globalDailyLimit s).
    { pose proof (do_claims_static [c] s) as Hs.
      change (do_claims [c] s) with (do_claim c s) in Hs.
      unfold static in Hs. congruence. }
    rewrite Hlim in Hb2.
    exists (d1 + d2). split; [lia|]. split; [lia|].
    destruct Hb2 as [->|Hb2]; [|right; exact Hb2].
    destruct Hb1 as [->|Hb1]; [left; reflexivity|right].
    rewrite Hu2, N.add_0_r. exact Hb1.
Qed.

(** Over any claims of one day, what the pool pays out in all is exactly
    what the remaining allowance of the pool goes down by, and so never
    more than the allowance the view reported before. *)
Theorem pool_pays_within_its_daily_allowance cs t s :
  Forall (fun c => day (at_time c) = day t) cs ->
  paid_total (payments (do_claims cs s))
  <= paid_total (payments s) + getGlobalDailyRemaining t s
  /\ getGlobalDailyRemaining t (do_claims cs s)
     = getGlobalDailyRemaining t s
       - (paid_total (payments (do_claims cs s)) - paid_total (payments s)).
Proof.
  intros Hdays.
  destruct (global_day_run cs t s Hdays) as (d & Hp & Hu & Hb).
  assert (Hlim : globalDailyLimit (do_claims cs s) = globalDailyLimit s).
  { pose proof (do_claims_static cs s) as Hs. unfold static in Hs. congruence. }
  rewrite !view_global, Hlim, Hp, Hu.
  destruct Hb as [->|Hb]; [split; lia|].
  rewrite Hu in Hb. split; lia.
Qed.

Lemma occurrences_once u users :
  NoDup users -> In u users -> occurrences u users = 1.
Proof.
  induction 1 as [|v users Hout Hnodup IH]; intros Hin; [destruct Hin|].
  simpl. destruct (N.eqb_spec v u) as [->|Hne].
  - rewrite occurrences_absent; [reflexivity|].
    intros Hu. apply Hout. apply list_elem_of_In. exact Hu.
  - destruct Hin as [Heq|Hin]; [contradiction|]. rewrite IH by exact Hin. reflexivity.
Qed.

(** Whatever the days of the claims, as long as no claim names a
    beneficiary twice, the amount stored for a beneficiary never passes
    the daily limit per user. *)
Theorem beneficiary_named_once_stays_within_its_limit cs u : forall s,
  Forall (fun c => NoDup (named c)) cs ->
  read (userDailySponsored s) u <= dailyLimitPerUser s ->
  read (userDailySponsored (do_claims cs s)) u <= dailyLimitPerUser s.
Proof.
  induction cs as [|c cs IH]; intros s Hnodup Hbefore; [exact Hbefore|].
  apply Forall_cons in Hnodup as [Hc Hcs].
  change (do_claims (c :: cs) s) with (do_claims cs (do_claim c s)).
  assert (Hstep : read (userDailySponsored (do_claim c s)) u <= dailyLimitPerUser s
                  /\ dailyLimitPerUser (do_claim c s) = dailyLimitPerUser s).
  { destruct (do_claim_cases c s) as [->|(_ & _ & Hchecks & ->)]; [auto|].
    destruct (settled_limits (caller c) (at_time c) (asked c) (named c) s)
      as (_ & Hlu & _).
    split; [|exact Hlu].
    apply checks_pass_inv in Hchecks as (_ & Husers & _). cbv zeta in Husers.
    rewrite settled_user_stored.
    destruct (in_dec N.eq_dec u (named c)) as [Hin|Hout].
    - rewrite (occurrences_once u (named c) Hc Hin), N.mul_1_r.
      apply Husers, Hin.
    - rewrite (occurrences_absent u (named c) Hout), N.mul_0_r, N.add_0_r.
      exact Hbefore. }
  destruct Hstep as [Hstored Hlimit].
  rewrite <- Hlimit. apply IH; [exact Hcs|].
  rewrite Hlimit. exact Hstored.
Qed.


(** *** The owner's functions and the claims *)

Lemma paused_claims cs : forall s, paused s = true -> do_claims cs s = s.
Proof.
  induction cs as [|c cs IH]; intros s Hpaused; [reflexivity|].
  change (do_claims (c :: cs) s) with (do_claims cs (do_claim c s)).
  destruct (do_claim_cases c s) as [->|(_ & Hrunning & _)]; [|congruence].
  apply IH, Hpaused.
Qed.

(** Between the owner's pause and the owner's unpause no claim moves
    anything: whatever is claimed in between, by whomever, the storage
    after the unpause is the storage before the pause. *)
Theorem pause_and_unpause_give_the_storage_back cs p :
  paused (storage p) = false ->
  storage (perform (SetPaused (owner (storage p)) false)
             (write (do_claims cs)
                (perform (SetPaused (owner (storage p)) true) p)))
  = storage p.
Proof.
  intros Hrunning.
  rewrite (perform_setPaused _ true p), N.eqb_refl.
  unfold write at 1. simpl storage at 3.
  rewrite paused_claims by reflexivity.
  rewrite perform_setPaused. simpl. rewrite N.eqb_refl. simpl.
  destruct (storage p). simpl in *. subst. reflexivity.
Qed.


Lemma read_flag_insert (m : gmap address bool) a b v :
  read_flag (<[a := v]> m) b = if decide (a = b) then v else read_flag m b.
Proof. unfold read_flag. rewrite lookup_insert. destruct (decide (a = b)); reflexivity. Qed.

(** The status of a relayer is what the owner set last: the call changes
    the status of that relayer alone and no allowance of the day, and a
    relayer taken off the list is refused by [claim] before anything else
    is looked at. *)
Theorem relayer_status_is_what_the_owner_set sender r status p :
  sender = owner (storage p) ->
  read_flag (whitelistedRelayers (storage (perform (SetRelayer sender r status) p))) r
  = status
  /\ (forall r', r' <> r ->
        read_flag (whitelistedRelayers
                     (storage (perform (SetRelayer sender r status) p))) r'
        = read_flag (whitelistedRelayers (storage p)) r')
  /\ (forall t a,
        getRelayerDailyRemaining t a (storage (perform (SetRelayer sender r status) p))
        = getRelayerDailyRemaining t a (storage p))
  /\ (status = false ->
      forall t amount users,
        commit (claim r t amount users)
               (storage (perform (SetRelayer sender r status) p))
        = (storage (perform (SetRelayer sender r status) p),
           inl (RequireFailed "GasSponsor: not whitelisted"))).
Proof.
  intros ->. rewrite perform_setRelayer, N.eqb_refl. simpl.
  split; [|split; [|split]].
  - rewrite read_flag_insert. destruct (decide (r = r)); congruence.
  - intros r' Hne. rewrite read_flag_insert.
    destruct (decide (r = r')); congruence.
  - reflexivity.
  - intros -> t amount users. unfold commit. rewrite claim_unfold. cbv zeta.
    simpl whitelistedRelayers. rewrite read_flag_insert.
    destruct (decide (r = r)); [reflexivity|congruence].
Qed.

Lemma stranger_is_refused c p :
  owner_only c = true -> sender_of c <> owner (storage p) -> perform c p = p.
Proof.
  intros Hadmin Hstranger.
  destruct c as [a v|a v|a t amount users|a r b|a c r u g|a b|a n|a];
    try discriminate; simpl in Hstranger; apply N.eqb_neq in Hstranger.
  - rewrite perform_setRelayer, Hstranger. reflexivity.
  - rewrite perform_setLimits, Hstranger. reflexivity.
  - rewrite perform_setPaused, Hstranger. reflexivity.
  - rewrite perform_transferOwnership, Hstranger. reflexivity.
  - rewrite perform_emergencyWithdraw, Hstranger. reflexivity.
Qed.

(** When the owner hands the pool over to another address, the new owner
    is the owner at once and the old one is a stranger: each of the five
    functions of the owner, called by the old owner, is refused and changes
    nothing, while the new owner's call is obeyed. *)
Theorem ownership_is_handed_over_whole sender n p :
  sender = owner (storage p) -> n <> 0 -> n <> sender ->
  owner (storage (perform (TransferOwnership sender n) p)) = n
  /\ (forall c, owner_only c = true -> sender_of c = sender ->
        perform c (perform (TransferOwnership sender n) p)
        = perform (TransferOwnership sender n) p)
  /\ (forall b,
        paused (storage (perform (SetPaused n b)
                           (perform (TransferOwnership sender n) p))) = b).
Proof.
  intros -> Hn Hother.
  assert (Howner : owner (storage (perform (TransferOwnership (owner (storage p)) n) p))
                   = n).
  { rewrite perform_transferOwnership, N.eqb_refl.
    apply N.eqb_neq in Hn. rewrite Hn. reflexivity. }
  split; [exact Howner|]. split.
  - intros c Hadmin Hsender. apply stranger_is_refused; [exact Hadmin|].
    rewrite Howner, Hsender. congruence.
  - intros b. rewrite perform_setPaused, Howner, N.eqb_refl. reflexivity.
Qed.

(** New limits apply to the running day: the owner's [setLimits] keeps
    every counter, so each view reports the new limit less what was
    already counted today, and nothing when the new limit is below it; a
    claim is capped by the new [maxPerClaim]; and a relayer that has
    already used up the new limit is refused any positive amount for the
    rest of the day. *)
Theorem new_limits_apply_to_the_running_day
    sender perClaim perRelayer perUser global p :
  sender = owner (storage p) ->
  (forall t a,
     getRelayerDailyRemaining t a
       (storage (perform (SetLimits sender perClaim perRelayer perUser global) p))
     = perRelayer - relayer_used (storage p) (day t) a)
  /\ (forall t u,
        getUserDailyRemaining t u
          (storage (perform (SetLimits sender perClaim perRelayer perUser global) p))
        = perUser - user_used (storage p) (day t) u)
  /\ (forall t,
        getGlobalDailyRemaining t
          (storage (perform (SetLimits sender perClaim perRelayer perUser global) p))
        = global - global_used (storage p) (day t))
  /\ (forall amount,
        capped (storage (perform (SetLimits sender perClaim perRelayer perUser global) p))
               amount
        = N.min amount perClaim)
  /\ (forall c,
        perRelayer <= relayer_used (storage p) (day (at_time c)) (caller c) ->
        0 < N.min (asked c) perClaim ->
        do_claim c
          (storage (perform (SetLimits sender perClaim perRelayer perUser global) p))
        = storage (perform (SetLimits sender perClaim perRelayer perUser global) p)).
Proof.
  intros ->. rewrite perform_setLimits, N.eqb_refl. simpl storage.
  assert (Hcap : forall amount,
            capped (set_limits perClaim perRelayer perUser global (storage p)) amount
            = N.min amount perClaim).
  { intros amount. unfold capped. simpl.
    destruct (perClaim <? amount) eqn:E.
    - apply N.ltb_lt in E. lia.
    - apply N.ltb_ge in E. lia. }
  split; [intros t a; rewrite view_relayer; reflexivity|].
  split; [intros t u; rewrite view_user; reflexivity|].
  split; [intros t; rewrite view_global; reflexivity|].
  split; [exact Hcap|].
  intros c Hused Hpositive.
  match goal with |- do_claim c ?s' = _ =>
    destruct (do_claim_cases c s') as [Hsame|(_ & _ & Hchecks & _)];
      [exact Hsame|] end.
  apply checks_pass_inv in Hchecks as (Hrel & _). cbv zeta in Hrel.
  rewrite Hcap in Hrel.
  change (relayer_used (storage p) (day (at_time c)) (caller c)
          + N.min (asked c) perClaim <= perRelayer) in Hrel.
  lia.
Qed.

End Proofs.

(** ** The properties on the toy pool *)

Section Witnesses.
Import PoolScenario MoreScenario.

(** The limit per user is checked once per mention and charged once per
    mention: a beneficiary at 8 of 10 that is named twice in a claim of 5
    passes both checks with a share of 2 and ends at 12. *)
Example beneficiary_named_twice_passes_its_limit :
  read (userDailySponsored
          (do_claims [ {| caller := relayer; at_time := 10; asked := 4;
                          named := [alice] |};
                       {| caller := relayer; at_time := 10; asked := 4;
                          named := [alice] |};
                       {| caller := relayer; at_time := 10; asked := 5;
                          named := [alice; alice] |} ] pool)) alice = 12
  /\ dailyLimitPerUser pool = 10.
Proof. vm_compute. split; reflexivity. Qed.

Lemma only_the_owner_configures_witness :
  configuration
    (perform_all [Deposit alice 5; Claim relayer 10 3 [alice];
                  SetPaused bob true; EmergencyWithdraw relayer] (pool_of pool))
  = configuration (pool_of pool)
  /\ admin_events
       (perform_all [Deposit alice 5; Claim relayer 10 3 [alice];
                     SetPaused bob true; EmergencyWithdraw relayer] (pool_of pool))
     = admin_events (pool_of pool)
  /\ exists paid,
       payments (storage
         (perform_all [Deposit alice 5; Claim relayer 10 3 [alice];
                       SetPaused bob true; EmergencyWithdraw relayer] (pool_of pool)))
       = payments (storage (pool_of pool)) ++ paid
       /\ Forall (sponsored_payment (pool_of pool)) paid.
Proof.
  apply (only_the_owner_configures
           [Deposit alice 5; Claim relayer 10 3 [alice];
            SetPaused bob true; EmergencyWithdraw relayer] (pool_of pool)).
  apply Forall_cons; split; [vm_compute; discriminate|].
  apply Forall_cons; split; [vm_compute; discriminate|].
  apply Forall_cons; split; [vm_compute; discriminate|].
  apply Forall_cons; split; [vm_compute; discriminate|].
  constructor.
Defined.

Lemma pool_always_has_an_owner_witness :
  owner (storage (perform_all [TransferOwnership owner1 0; TransferOwnership owner1 5]
                    new_pool)) <> 0.
Proof.
  apply (pool_always_has_an_owner
           [TransferOwnership owner1 0; TransferOwnership owner1 5] new_pool).
  vm_compute. discriminate.
Defined.


Lemma relayer_is_paid_within_its_allowance_witness :
  paid_to relayer
    (payments (do_claims [ {| caller := relayer; at_time := 10; asked := 3;
                              named := [alice] |};
                           {| caller := vault; at_time := 30; asked := 2;
                              named := [bob] |};
                           {| caller := relayer; at_time := 40; asked := 9;
                              named := [alice; bob] |} ] pool))
  <= paid_to relayer (payments pool) + getRelayerDailyRemaining 20 relayer pool.
Proof.
  destruct (relayer_is_paid_within_its_allowance
              [ {| caller := relayer; at_time := 10; asked := 3; named := [alice] |};
                {| caller := vault; at_time := 30; asked := 2; named := [bob] |};
                {| caller := relayer; at_time := 40; asked := 9;
                   named := [alice; bob] |} ] 20 relayer pool) as [Hbound _].
  - apply Forall_cons; split; [vm_compute; reflexivity|].
    apply Forall_cons; split; [vm_compute; reflexivity|].
    apply Forall_cons; split; [vm_compute; reflexivity|].
    constructor.
  - exact Hbound.
Defined.

Lemma pool_pays_within_its_daily_allowance_witness :
  paid_total
    (payments (do_claims [ {| caller := relayer; at_time := 10; asked := 5;
                              named := [alice] |};
                           {| caller := carol; at_time := 30; asked := 5;
                              named := [bob] |} ] tight_pool))
  <= paid_total (payments tight_pool) + getGlobalDailyRemaining 20 tight_pool.
Proof.
  destruct (pool_pays_within_its_daily_allowance
              [ {| caller := relayer; at_time := 10; asked := 5; named := [alice] |};
                {| caller := carol; at_time := 30; asked := 5; named := [bob] |} ]
              20 tight_pool) as [Hbound _].
  - apply Forall_cons; split; [vm_compute; reflexivity|].
    apply Forall_cons; split; [vm_compute; reflexivity|].
    constructor.
  - exact Hbound.
Defined.

Lemma beneficiary_named_once_stays_within_its_limit_witness :
  read (userDailySponsored
          (do_claims [ {| caller := relayer; at_time := 10; asked := 4;
                          named := [alice; bob] |};
                       {| caller := relayer; at_time := 10; asked := 5;
                          named := [alice] |} ] pool)) alice
  <= dailyLimitPerUser pool.
Proof.
  apply (beneficiary_named_once_stays_within_its_limit
           [ {| caller := relayer; at_time := 10; asked := 4; named := [alice; bob] |};
             {| caller := relayer; at_time := 10; asked := 5; named := [alice] |} ]
           alice pool).
  - apply Forall_cons; split;
      [refine (@bool_decide_unpack (NoDup [alice; bob]) _ _); vm_compute; exact I|].
    apply Forall_cons; split;
      [refine (@bool_decide_unpack (NoDup [alice]) _ _); vm_compute; exact I|].
    constructor.
  - vm_compute. discriminate.
Defined.

Lemma pause_and_unpause_give_the_storage_back_witness :
  storage (perform (SetPaused (owner (storage (pool_of pool))) false)
             (write (do_claims [ {| caller := relayer; at_time := 10; asked := 3;
                                    named := [alice] |} ])
                (perform (SetPaused (owner (storage (pool_of pool))) true)
                   (pool_of pool))))
  = storage (pool_of pool).
Proof.
  apply (pause_and_unpause_give_the_storage_back
           [ {| caller := relayer; at_time := 10; asked := 3; named := [alice] |} ]
           (pool_of pool)).
  reflexivity.
Defined.


Lemma relayer_status_is_what_the_owner_set_witness :
  commit (claim relayer 10 3 [alice])
         (storage (perform (SetRelayer 1 relayer false) (pool_of pool)))
  = (storage (perform (SetRelayer 1 relayer false) (pool_of pool)),
     inl (RequireFailed "GasSponsor: not whitelisted")).
Proof.
  destruct (relayer_status_is_what_the_owner_set 1 relayer false (pool_of pool))
    as (_ & _ & _ & Hrefused).
  - reflexivity.
  - exact (Hrefused eq_refl 10 3 [alice]).
Defined.

Lemma ownership_is_handed_over_whole_witness :
  owner (storage (perform (TransferOwnership owner1 5) new_pool)) = 5
  /\ perform (SetPaused owner1 true) (perform (TransferOwnership owner1 5) new_pool)
     = perform (TransferOwnership owner1 5) new_pool.
Proof.
  destruct (ownership_is_handed_over_whole owner1 5 new_pool)
    as (Howner & Hrefused & _).
  - reflexivity.
  - discriminate.
  - discriminate.
  - split; [exact Howner|].
    exact (Hrefused (SetPaused owner1 true) eq_refl eq_refl).
Defined.

(** The relayer has used 4 today; the owner lowers the limit per relayer
    to 3. *)
Lemma new_limits_apply_to_the_running_day_witness :
  getRelayerDailyRemaining (2 * ONE_DAY) relayer
    (storage (perform (SetLimits 1 5 3 10 30) (pool_of stale_pool)))
  = 3 - relayer_used (storage (pool_of stale_pool)) (day (2 * ONE_DAY)) relayer
  /\ do_claim {| caller := relayer; at_time := 2 * ONE_DAY; asked := 1;
                 named := [alice] |}
       (storage (perform (SetLimits 1 5 3 10 30) (pool_of stale_pool)))
     = storage (perform (SetLimits 1 5 3 10 30) (pool_of stale_pool)).
Proof.
  destruct (new_limits_apply_to_the_running_day 1 5 3 10 30 (pool_of stale_pool))
    as (Hview & _ & _ & _ & Hrefused).
  - reflexivity.
  - split; [exact (Hview (2 * ONE_DAY) relayer)|].
    apply (Hrefused {| caller := relayer; at_time := 2 * ONE_DAY; asked := 1;
                       named := [alice] |}).
    + vm_compute. discriminate.
    + vm_compute. reflexivity.
Defined.

End Witnesses.

End MorePoolProofs.
